(** * The language switcher and the environment helpers of next-static-web

    A shallow embedding of
      - [src/shared/ui/langswitcher/contract/contract.ts]  (module [Contract]),
      - [src/shared/ui/langswitcher/LanguageSwitcher.tsx]  (module [Switcher]),
      - [src/shared/lib/utils/browser.tsx]                 (module [Browser]),
    over a small model of the JavaScript values they use (module [Js]).

    Conventions of the model.
      - A function that may throw returns a [completion]: [Normal v] or
        [Throw e].
      - A JavaScript string is a [string], read as the bytes of its UTF-8
        form, so that the characters the code looks for (the slash, the
        letters of the user-agent patterns) are single characters.  The
        built-in [String.prototype.toLowerCase] is a method of the class
        [StringHost], so every result holds for whatever case mapping the
        host implements.
      - A [Record<string, V>] is an [Obj V]: its own enumerable properties in
        the order [Object.entries] lists them, with pairwise distinct keys.
        The records are ordinary objects (object literals, parsed JSON):
        property lookup [o[k]] finds the own properties first and then the
        members every such object inherits from [Object.prototype].
      - The switcher is a state machine whose step is one event: the handler
        runs, React renders and commits, and the effect whose dependency
        changed runs, all within the step. *)

From Stdlib Require Import List String Ascii Bool Arith ZArith Lia.
Import ListNotations.

Local Open Scope string_scope.
Local Open Scope list_scope.

(* ================================================================== *)
(** ** JavaScript values                                               *)
(* ================================================================== *)

Module Js.

(** What a [throw] carries. *)
Inductive JsError : Type :=
| Error (message : string)
| TypeError (message : string)
| ReferenceError (message : string).

(** The outcome of evaluating a function body. *)
Inductive completion (A : Type) : Type :=
| Normal (value : A)
| Throw (e : JsError).
Arguments Normal {A} value.
Arguments Throw {A} e.

Definition bind {A B} (m : completion A) (k : A -> completion B)
  : completion B :=
  match m with
  | Normal a => k a
  | Throw e => Throw e
  end.

Definition throws {A} (m : completion A) : bool :=
  match m with
  | Normal _ => false
  | Throw _ => true
  end.

(** [x = d] in a destructuring pattern, and [x || d] on an optional. *)
Definition default {A} (d : A) (x : option A) : A :=
  match x with
  | Some a => a
  | None => d
  end.

(** *** Strings *)

(** [Boolean(s)]: a string is truthy unless it is empty. *)
Definition truthy (s : string) : bool :=
  match s with
  | EmptyString => false
  | String _ _ => true
  end.

(** [a || b] on strings. *)
Definition or_else (a b : string) : string :=
  if truthy a then a else b.

(** [t] occurs in [s] at position 0. *)
Fixpoint starts_with (s t : string) {struct t} : bool :=
  match t with
  | EmptyString => true
  | String c t' =>
      match s with
      | EmptyString => false
      | String d s' => Ascii.eqb c d && starts_with s' t'
      end
  end.

(** [s.includes(t)]: [t] occurs in [s] at some position. *)
Fixpoint includes (s t : string) : bool :=
  starts_with s t ||
  match s with
  | EmptyString => false
  | String _ s' => includes s' t
  end.

(** [s.split(sep)] for a separator of one character. *)
Fixpoint split (sep : ascii) (s : string) : list string :=
  match s with
  | EmptyString => [EmptyString]
  | String c s' =>
      if Ascii.eqb c sep then EmptyString :: split sep s'
      else match split sep s' with
           | w :: ws => String c w :: ws
           | [] => [String c EmptyString]
           end
  end.

(** [l.join(sep)]. *)
Fixpoint join (sep : string) (l : list string) : string :=
  match l with
  | [] => EmptyString
  | [x] => x
  | x :: (_ :: _) as l' => x ++ sep ++ join sep l'
  end.

(** Case folding of a regular expression with the [i] flag and no [u]
    flag: only the letters A-Z and a-z are identified. *)
Definition fold_char (c : ascii) : ascii :=
  let n := nat_of_ascii c in
  if Nat.leb 65 n && Nat.leb n 90 then ascii_of_nat (n + 32) else c.

Fixpoint fold_case (s : string) : string :=
  match s with
  | EmptyString => EmptyString
  | String c s' => String (fold_char c) (fold_case s')
  end.

(** The host's [String.prototype.toLowerCase]. *)
Class StringHost : Type := {
  toLowerCase : string -> string;
  toLowerCase_empty : toLowerCase EmptyString = EmptyString
}.

(** *** Records used as maps *)

Fixpoint distinct (l : list string) : bool :=
  match l with
  | [] => true
  | k :: ks => negb (existsb (String.eqb k) ks) && distinct ks
  end.

Record Obj (V : Type) : Type := mkObj {
  entries : list (string * V);
  entries_distinct : distinct (map fst entries) = true
}.
Arguments mkObj {V} entries entries_distinct.
Arguments entries {V} o.
Arguments entries_distinct {V} o.

(** [Object.keys(o)] *)
Definition keys {V} (o : Obj V) : list string := map fst (entries o).

(** The own property [k] of [o]: [None] when [k] is not an own key. *)
Definition get {V} (o : Obj V) (k : string) : option V :=
  option_map snd (find (fun kv => String.eqb (fst kv) k) (entries o)).

(** The members an ordinary object inherits from [Object.prototype], each
    with the [name] property of its value ([None] for [undefined]): the
    functions carry their name, [constructor] is the function [Object], and
    [__proto__] reads [Object.prototype] itself, which has no [name]. *)
Definition prototype_members : list (string * option string) :=
  [("constructor", Some "Object");
   ("__defineGetter__", Some "__defineGetter__");
   ("__defineSetter__", Some "__defineSetter__");
   ("hasOwnProperty", Some "hasOwnProperty");
   ("__lookupGetter__", Some "__lookupGetter__");
   ("__lookupSetter__", Some "__lookupSetter__");
   ("isPrototypeOf", Some "isPrototypeOf");
   ("propertyIsEnumerable", Some "propertyIsEnumerable");
   ("toString", Some "toString");
   ("valueOf", Some "valueOf");
   ("__proto__", None);
   ("toLocaleString", Some "toLocaleString")].

Definition inherited_names : list string := map fst prototype_members.

(** What [o[k]] finds: an own value, or an inherited member, a function or
    an object, of which the code can read the [name]. *)
Inductive Property (V : Type) : Type :=
| Own (value : V)
| Inherited (name : option string).
Arguments Own {V} value.
Arguments Inherited {V} name.

(** [o[k]]: [None] is [undefined]; whatever is found is truthy. *)
Definition lookup {V} (o : Obj V) (k : string) : option (Property V) :=
  match get o k with
  | Some v => Some (Own v)
  | None =>
      option_map (fun member => Inherited (snd member))
                 (find (fun member => String.eqb (fst member) k)
                       prototype_members)
  end.

(** [a || b] on values that are a string or [undefined]. *)
Definition or_undefined (a b : option string) : option string :=
  match a with
  | Some s => if truthy s then a else b
  | None => b
  end.

(** [l.includes(x)] on an array of strings. *)
Definition array_includes (l : list string) (x : string) : bool :=
  existsb (String.eqb x) l.

End Js.

(** A host whose [toLowerCase] maps the letters A-Z and nothing else; the
    examples below run on it. *)
Module AsciiHost.

#[export] Instance host : Js.StringHost :=
  {| Js.toLowerCase := Js.fold_case; Js.toLowerCase_empty := eq_refl |}.

End AsciiHost.

(* ================================================================== *)
(** ** contract/contract.ts                                            *)
(* ================================================================== *)

Module Contract.
Import Js.

Record LocaleData : Type := mkLocaleData {
  name : string;
  nativeName : string;
  flag : string;
  rtl : bool;
  dateFormat : string;
  numberFormat : string
}.

Record LanguageItem : Type := mkLanguageItem {
  code : string;
  label : string;
  item_flag : string;
  isActive : bool
}.

(** The label and the flag are strings by their type; what the code puts
    there can be [undefined], which is [None]. *)
Record Trigger : Type := mkTrigger {
  trigger_label : option string;
  trigger_flag : option string;
  trigger_isOpen : bool
}.

Record Search : Type := mkSearch {
  placeholder : string;
  value : string
}.

Record LanguageView : Type := mkLanguageView {
  trigger : Trigger;
  search : Search;
  items : list LanguageItem;
  filteredItems : list LanguageItem
}.

(** [locales] and [currentLocale] are required by the type, yet the body
    tests them for absence: [None] is a caller that left them out. *)
Record LanguageSwitcherConfig : Type := mkConfig {
  locales : option (Obj LocaleData);
  currentLocale : option string;
  searchValue : option string;
  isOpen : option bool;
  triggerLabel : option string;
  searchPlaceholder : option string
}.

(** The entry of one locale, lines 91-96. *)
Definition toItem (currentLocale : string) (kv : string * LocaleData)
  : LanguageItem :=
  let (code, data) := kv in
  {| code := code;
     label := or_else (nativeName data) (name data);
     item_flag := flag data;
     isActive := String.eqb code currentLocale |}.

(** [currentLocaleData.nativeName], [.name] and [.flag] of what the lookup
    of line 85 found: an inherited member has a [name] at most. *)
Definition nativeName_of (found : Property LocaleData) : option string :=
  match found with
  | Own data => Some (nativeName data)
  | Inherited _ => None
  end.

Definition name_of (found : Property LocaleData) : option string :=
  match found with
  | Own data => Some (name data)
  | Inherited member_name => member_name
  end.

Definition flag_of (found : Property LocaleData) : option string :=
  match found with
  | Own data => Some (flag data)
  | Inherited _ => None
  end.

(** The predicate of the filter, lines 101-104. *)
Definition matchesSearch `{StringHost} (searchValue : string)
           (item : LanguageItem) : bool :=
  includes (toLowerCase (label item)) (toLowerCase searchValue) ||
  includes (toLowerCase (code item)) (toLowerCase searchValue).

Definition buildLanguageView `{StringHost} (config : LanguageSwitcherConfig)
  : completion LanguageView :=
  let searchValue := default EmptyString (searchValue config) in
  let isOpen := default false (isOpen config) in
  let searchPlaceholder := default "Search" (searchPlaceholder config) in
  match locales config with
  | None =>
      Throw (Error "Locales configuration is required and cannot be empty")
  | Some locales =>
      if Nat.eqb (List.length (keys locales)) 0 then
        Throw (Error "Locales configuration is required and cannot be empty")
      else
        match currentLocale config with
        | None => Throw (Error "Current locale is required")
        | Some currentLocale =>
            if negb (truthy currentLocale) then
              Throw (Error "Current locale is required")
            else
              match lookup locales currentLocale with
              | None =>
                  Throw (Error ("Current locale " ++ String "034" currentLocale
                                ++ String "034" " not found in locales configuration"))
              | Some currentLocaleData =>
                  let items := map (toItem currentLocale) (entries locales) in
                  let filteredItems :=
                    if truthy searchValue
                    then filter (matchesSearch searchValue) items
                    else items in
                  Normal
                    {| trigger :=
                         {| trigger_label :=
                              or_undefined (nativeName_of currentLocaleData)
                                           (name_of currentLocaleData);
                            trigger_flag := flag_of currentLocaleData;
                            trigger_isOpen := isOpen |};
                       search :=
                         {| placeholder := searchPlaceholder;
                            value := searchValue |};
                       items := items;
                       filteredItems := filteredItems |}
              end
        end
  end.

End Contract.

(* ================================================================== *)
(** ** lib/utils/browser.tsx                                           *)
(* ================================================================== *)

Module Browser.
Import Js.

Inductive TouchSupport : Type := has_touch | no_touch.
Inductive MobileSupport : Type := has_mobile | no_mobile.
Inductive BrowserName : Type :=
| Chrome | Edge | Safari | Firefox | Opera | Brave | Samsung | Unknown.

(** *** The globals the helpers read *)

(** An element, as far as [name in element] can tell. *)
Record Element : Type := mkElement { properties : list string }.
Record Document : Type := mkDocument { documentElement : Element }.
Record Navigator : Type := mkNavigator {
  userAgent : string;
  maxTouchPoints : Z;
  platform : string
}.
Record Window : Type := mkWindow { innerWidth : Z; innerHeight : Z }.

(** A global that is [None] is not declared: [typeof x === 'undefined']
    holds, and reading [x] raises a [ReferenceError]. *)
Record Env : Type := mkEnv {
  window : option Window;
  document : option Document;
  navigator : option Navigator
}.

(** *** Evaluation: exceptions and the console *)

(** One call of [console.warn(message, error)]. *)
Definition Console : Type := list (string * JsError).

Definition Run (A : Type) : Type := Console -> completion A * Console.

Definition ret {A} (a : A) : Run A := fun k => (Normal a, k).

Definition throw {A} (e : JsError) : Run A := fun k => (Throw e, k).

Definition andThen {A B} (m : Run A) (f : A -> Run B) : Run B :=
  fun k =>
    match m k with
    | (Normal a, k') => f a k'
    | (Throw e, k') => (Throw e, k')
    end.

Definition try_catch {A} (body : Run A) (handler : JsError -> Run A)
  : Run A :=
  fun k =>
    match body k with
    | (Normal a, k') => (Normal a, k')
    | (Throw e, k') => handler e k'
    end.

Definition console_warn (message : string) (e : JsError) : Run unit :=
  fun k => (Normal tt, k ++ [(message, e)]).

Notation "x <- m ;; f" := (andThen m (fun x => f))
  (at level 61, m at next level, right associativity).
Notation "m ;;; f" := (andThen m (fun _ => f))
  (at level 61, right associativity).

Definition undefined {A} (x : option A) : bool :=
  match x with
  | Some _ => false
  | None => true
  end.

(** Reading a global variable. *)
Definition global {A} (name : string) (x : option A) : Run A :=
  match x with
  | Some a => ret a
  | None => throw (ReferenceError (name ++ " is not defined"))
  end.

(** [name in element] *)
Definition has_property (name : string) (e : Element) : bool :=
  array_includes (properties e) name.

(** *** The two regular expressions of [hasMobile] *)

(** [/w/i.test(s)] for a literal word [w]. *)
Definition test_word (s w : string) : bool :=
  includes (fold_case s) (fold_case w).

(** [/Android|webOS|iPhone|iPad|iPod|BlackBerry|IEMobile|Opera Mini|Windows Phone|Mobile/i] *)
Definition mobileRegex_test (s : string) : bool :=
  existsb (test_word s)
    ["Android"; "webOS"; "iPhone"; "iPad"; "iPod"; "BlackBerry"; "IEMobile";
     "Opera Mini"; "Windows Phone"; "Mobile"].

(** What [.*] can run over: the string up to its first line terminator
    (LF, CR, and U+2028, U+2029 in their UTF-8 form). *)
Fixpoint same_line (s : string) : string :=
  match s with
  | EmptyString => EmptyString
  | String c s' =>
      if Ascii.eqb c "010" || Ascii.eqb c "013" then EmptyString
      else if Ascii.eqb c "226" &&
              (starts_with s' (String "128" (String "168" EmptyString)) ||
               starts_with s' (String "128" (String "169" EmptyString)))
      then EmptyString
      else String c (same_line s')
  end.

(** [Android(?!.*Mobile)] matched at the start of [s] *)
Definition android_here (s : string) : bool :=
  starts_with (fold_case s) "android" &&
  negb (test_word (same_line (String.substring 7 (String.length s - 7) s))
                  "Mobile").

(** [Android(?!.*Mobile)] matched somewhere in [s] *)
Fixpoint android_not_mobile (s : string) : bool :=
  android_here s ||
  match s with
  | EmptyString => false
  | String _ s' => android_not_mobile s'
  end.

(** [/iPad|Android(?!.*Mobile)|Tablet/i] *)
Definition tabletRegex_test (s : string) : bool :=
  test_word s "iPad" || android_not_mobile s || test_word s "Tablet".

(** *** The helpers *)

Definition hasTouch (env : Env) : Run TouchSupport :=
  if undefined (window env) || undefined (document env) then ret no_touch
  else
    try_catch
      (doc <- global "document" (document env) ;;
       let hasTouchEvents :=
         has_property "ontouchstart" (documentElement doc) in
       let hasPointerEvents :=
         has_property "onpointerdown" (documentElement doc) in
       nav <- global "navigator" (navigator env) ;;
       let hasTouchPoints := (0 <? maxTouchPoints nav)%Z in
       ret (if hasTouchEvents || hasPointerEvents || hasTouchPoints
            then has_touch else no_touch))
      (fun error =>
         console_warn "Error detecting touch support:" error ;;;
         ret no_touch).

Definition hasMobile (env : Env) : Run MobileSupport :=
  if undefined (window env) || undefined (navigator env) then ret no_mobile
  else
    try_catch
      (nav <- global "navigator" (navigator env) ;;
       let isMobileUA := mobileRegex_test (userAgent nav) in
       let isTablet := tabletRegex_test (userAgent nav) in
       win <- global "window" (window env) ;;
       let isNarrowViewport :=
         if (innerWidth win =? 0)%Z then false
         else (innerWidth win <=? 768)%Z in
       touch <- hasTouch env ;;
       let isTouchDevice :=
         match touch with has_touch => true | no_touch => false end in
       ret (if isMobileUA || isTablet || (isNarrowViewport && isTouchDevice)
            then has_mobile else no_mobile))
      (fun error =>
         console_warn "Error detecting mobile device:" error ;;;
         ret no_mobile).

Definition isUserAgent `{StringHost} (env : Env) (agent : string)
  : Run bool :=
  if undefined (navigator env) then ret false
  else if negb (truthy agent) then ret false
  else
    try_catch
      (nav <- global "navigator" (navigator env) ;;
       ret (includes (toLowerCase (userAgent nav)) (toLowerCase agent)))
      (fun error =>
         console_warn "Error checking user agent:" error ;;;
         ret false).

Definition getUserAgent `{StringHost} (env : Env) : Run BrowserName :=
  if undefined (navigator env) then ret Unknown
  else
    try_catch
      (nav <- global "navigator" (navigator env) ;;
       let userAgent := toLowerCase (userAgent nav) in
       ret (if includes userAgent "brave" then Brave
            else if includes userAgent "samsung" then Samsung
            else if includes userAgent "opr" || includes userAgent "opera"
                 then Opera
            else if includes userAgent "edg" then Edge
            else if includes userAgent "chrome" then Chrome
            else if includes userAgent "safari" &&
                    negb (includes userAgent "chrome") then Safari
            else if includes userAgent "firefox" then Firefox
            else Unknown))
      (fun error =>
         console_warn "Error detecting browser:" error ;;;
         ret Unknown).

End Browser.

(* ================================================================== *)
(** ** LanguageSwitcher.tsx                                            *)
(* ================================================================== *)

Module Switcher.
Import Js.

(** The DOM, as far as the component looks at it: [a.contains(b)]. *)
Class Dom (node : Type) : Type := { contains : node -> node -> bool }.

Record LanguageSwitcherProps : Type := mkProps {
  locales : Obj Contract.LocaleData;
  currentLocale : string;
  className : option string
}.

(** The two [useState] cells. *)
Record State : Type := mkState {
  isOpen : bool;
  searchValue : string
}.

(** What a handler asks of React and of the router.  [setIsOpen] takes an
    updater; [setIsOpen(false)] is the constant updater. *)
Inductive Call : Type :=
| setIsOpen (updater : bool -> bool)
| setSearchValue (value : string)
| router_push (path : string).

Definition to (b : bool) : bool -> bool := fun _ => b.

(** *** Arrays of path segments *)

(** [segments[0] = code] *)
Definition assign_first (code : string) (segments : list string)
  : list string :=
  match segments with
  | [] => [code]
  | _ :: rest => code :: rest
  end.

(** [segments.unshift(code)] *)
Definition unshift (code : string) (segments : list string) : list string :=
  code :: segments.

(** [Object.keys(locales).includes(segments[0])]; an index out of range
    reads [undefined], which no key equals. *)
Definition first_is_locale (locales : Obj Contract.LocaleData)
           (segments : list string) : bool :=
  match nth_error segments 0 with
  | Some s => array_includes (keys locales) s
  | None => false
  end.

(** *** The handlers of one render *)

(** Lines 87-92; [isOpen] is the value the render closed over. *)
Definition onToggle (isOpen : bool) : list Call :=
  setIsOpen negb :: (if isOpen then [setSearchValue EmptyString] else []).

(** Lines 98-100. *)
Definition onSearch (value : string) : list Call := [setSearchValue value].

(** Lines 114-127: the segments after the rewrite, and the path. *)
Definition newSegments (locales : Obj Contract.LocaleData)
           (pathname code : string) : list string :=
  let segments := filter truthy (split "/" pathname) in
  if Nat.ltb 0 (List.length segments) && first_is_locale locales segments
  then assign_first code segments
  else unshift code segments.

Definition newPath (locales : Obj Contract.LocaleData)
           (pathname code : string) : string :=
  let segments := newSegments locales pathname code in
  if Nat.ltb 0 (List.length segments)
  then "/" ++ join "/" segments
  else "/" ++ code.

(** Lines 106-135. *)
Definition onSelect (props : LanguageSwitcherProps) (pathname : string)
           (code : string) : list Call :=
  if String.eqb code (currentLocale props) then
    [setIsOpen (to false); setSearchValue EmptyString]
  else
    [setIsOpen (to false); setSearchValue EmptyString;
     router_push (newPath (locales props) pathname code)].

(** Lines 53-59. *)
Definition handleClickOutside {node} `{Dom node}
           (containerRef : option node) (target : node) : list Call :=
  match containerRef with
  | Some current =>
      if negb (contains current target)
      then [setIsOpen (to false); setSearchValue EmptyString]
      else []
  | None => []
  end.

(** *** The mounted component *)

Section Component.
Context {node : Type} {dom : Dom node} {host : StringHost}.

Record Component : Type := mkComponent {
  props : LanguageSwitcherProps;
  pathname : string;              (* usePathname() *)
  container : node;               (* the <div> the component renders *)
  mounted : bool;
  state : State;
  containerRef : option node;     (* containerRef.current *)
  view : Contract.LanguageView;   (* the view of the last render *)
  deps : bool;                    (* [isOpen] at the last effect run *)
  cleanup : option nat;           (* what the last effect run returned *)
  listeners : list nat;           (* mousedown listeners on document *)
  generation : nat;               (* renders so far *)
  pushed : list string            (* arguments of router.push, oldest first *)
}.

(** Lines 70-76. *)
Definition config (p : LanguageSwitcherProps) (s : State)
  : Contract.LanguageSwitcherConfig :=
  {| Contract.locales := Some (locales p);
     Contract.currentLocale := Some (currentLocale p);
     Contract.searchValue := Some (searchValue s);
     Contract.isOpen := Some (isOpen s);
     Contract.triggerLabel := None;
     Contract.searchPlaceholder := Some "Search" |}.

(** [document.addEventListener('mousedown', h)]: a listener already
    registered is not registered twice. *)
Definition addEventListener (h : nat) (l : list nat) : list nat :=
  if existsb (Nat.eqb h) l then l else l ++ [h].

(** [document.removeEventListener('mousedown', h)] *)
Definition removeEventListener (h : nat) (l : list nat) : list nat :=
  filter (fun h' => negb (Nat.eqb h h')) l.

Definition run_cleanup (c : Component) : list nat :=
  match cleanup c with
  | Some h => removeEventListener h (listeners c)
  | None => listeners c
  end.

Definition apply_call (sp : State * list string) (call : Call)
  : State * list string :=
  let (s, p) := sp in
  match call with
  | setIsOpen u => ({| isOpen := u (isOpen s); searchValue := searchValue s |}, p)
  | setSearchValue v => ({| isOpen := isOpen s; searchValue := v |}, p)
  | router_push path => (s, p ++ [path])
  end.

Definition apply_calls (calls : list Call) (sp : State * list string)
  : State * list string :=
  fold_left apply_call calls sp.

(** The component leaves the tree: the cleanup of the last effect runs and
    the ref is cleared. *)
Definition unmount (c : Component) : Component :=
  {| props := props c; pathname := pathname c; container := container c;
     mounted := false;
     state := state c;
     containerRef := None;
     view := view c;
     deps := deps c;
     cleanup := None;
     listeners := run_cleanup c;
     generation := generation c;
     pushed := pushed c |}.

(** The effect of lines 52-67, run after a render whose [isOpen] differs
    from the one of the last run: first the cleanup that run returned, then
    the body, with the [handleClickOutside] of this render (named by the
    number of the render). *)
Definition useEffect (c : Component) : Component :=
  let h := generation c in
  {| props := props c; pathname := pathname c; container := container c;
     mounted := mounted c;
     state := state c;
     containerRef := containerRef c;
     view := view c;
     deps := isOpen (state c);
     cleanup := if isOpen (state c) then Some h else None;
     listeners :=
       if isOpen (state c) then addEventListener h (run_cleanup c)
       else run_cleanup c;
     generation := generation c;
     pushed := pushed c |}.

(** One render with props [p], pathname [path], state [s] and router
    history [hist]: line 79 builds the view, and a throw there takes the
    component down; otherwise the output is committed and the effect runs
    when its dependency changed. *)
Definition render (p : LanguageSwitcherProps) (path : string)
           (s : State) (hist : list string) (c : Component) : Component :=
  let c' :=
    {| props := p; pathname := path; container := container c;
       mounted := mounted c;
       state := s;
       containerRef := containerRef c;
       view := view c;
       deps := deps c;
       cleanup := cleanup c;
       listeners := listeners c;
       generation := S (generation c);
       pushed := hist |} in
  match Contract.buildLanguageView (config p s) with
  | Throw _ => unmount c'
  | Normal v =>
      let c'' :=
        {| props := p; pathname := path; container := container c;
           mounted := mounted c;
           state := s;
           containerRef := containerRef c;
           view := v;
           deps := deps c;
           cleanup := cleanup c;
           listeners := listeners c;
           generation := S (generation c);
           pushed := hist |} in
      if Bool.eqb (isOpen s) (deps c) then c'' else useEffect c''
  end.

(** The first render: [useState(false)], [useState('')], the ref is
    attached to the rendered [<div>], and the effect runs once. *)
Definition mount (p : LanguageSwitcherProps) (path : string) (div : node)
  : completion Component :=
  let s := {| isOpen := false; searchValue := EmptyString |} in
  bind (Contract.buildLanguageView (config p s))
       (fun v =>
          Normal
            (useEffect
               {| props := p; pathname := path; container := div;
                  mounted := true;
                  state := s;
                  containerRef := Some div;
                  view := v;
                  deps := false;
                  cleanup := None;
                  listeners := [];
                  generation := 0;
                  pushed := [] |})).

Inductive Event : Type :=
| click_trigger                      (* the trigger button: onToggle *)
| input (value : string)             (* the search box: onSearch *)
| click_item (code : string)         (* an item: onSelect *)
| mousedown (target : node)          (* anywhere in the document *)
| rerender (p : LanguageSwitcherProps) (path : string)
                                     (* the parent passes new props *)
| leave.                             (* the parent drops the component *)

(** What the handlers of the last render ask for on an event.  A mousedown
    reaches every listener registered on the document. *)
Definition calls (c : Component) (e : Event) : list Call :=
  match e with
  | click_trigger => onToggle (isOpen (state c))
  | input v => onSearch v
  | click_item code => onSelect (props c) (pathname c) code
  | mousedown target =>
      flat_map (fun _ => handleClickOutside (containerRef c) target)
               (listeners c)
  | rerender _ _ | leave => []
  end.

Definition step (c : Component) (e : Event) : Component :=
  if negb (mounted c) then c
  else
    match e with
    | leave => unmount c
    | rerender p path => render p path (state c) (pushed c) c
    | _ =>
        let (s, hist) := apply_calls (calls c e) (state c, pushed c) in
        render (props c) (pathname c) s hist c
    end.

Definition run (c : Component) (es : list Event) : Component :=
  fold_left step es c.

(** The states a component goes through. *)
Inductive Reachable : Component -> Prop :=
| reach_mount p path div c :
    mount p path div = Normal c -> Reachable c
| reach_step c e :
    Reachable c -> Reachable (step c e).

End Component.

Arguments Component node : clear implicits.
Arguments Event node : clear implicits.

End Switcher.

(* ================================================================== *)
(** ** What the specification says, in its own words                   *)
(* ================================================================== *)

Module Spec.
Import Js.

(** [q] is a case-insensitive substring of [s]. *)
Definition ContainsIgnoringCase `{StringHost} (s q : string) : Prop :=
  exists pre post, toLowerCase s = (pre ++ toLowerCase q ++ post)%string.

(** [r] is the list of exactly those elements of [l] that satisfy [P], in
    the order of [l]. *)
Inductive Selection {A : Type} (P : A -> Prop) : list A -> list A -> Prop :=
| select_nil : Selection P [] []
| select_keep x l r : P x -> Selection P l r -> Selection P (x :: l) (x :: r)
| select_drop x l r : ~ P x -> Selection P l r -> Selection P (x :: l) r.

(** The three ways a configuration fails validation. *)
Definition locales_missing_or_empty (config : Contract.LanguageSwitcherConfig)
  : Prop :=
  match Contract.locales config with
  | None => True
  | Some locales => keys locales = []
  end.

Definition currentLocale_missing_or_empty
           (config : Contract.LanguageSwitcherConfig) : Prop :=
  match Contract.currentLocale config with
  | None => True
  | Some currentLocale => currentLocale = EmptyString
  end.

Definition currentLocale_not_a_key (config : Contract.LanguageSwitcherConfig)
  : Prop :=
  match Contract.locales config, Contract.currentLocale config with
  | Some locales, Some currentLocale => ~ In currentLocale (keys locales)
  | _, _ => False
  end.

Definition validation_fails (config : Contract.LanguageSwitcherConfig)
  : Prop :=
  locales_missing_or_empty config \/
  currentLocale_missing_or_empty config \/
  currentLocale_not_a_key config.

(** The label shown for a locale: its native name, or its name when the
    native name is empty. *)
Definition displayed (data : Contract.LocaleData) (label : string) : Prop :=
  (Contract.nativeName data <> EmptyString ->
   label = Contract.nativeName data) /\
  (Contract.nativeName data = EmptyString -> label = Contract.name data).

(** The segments of the navigated path: the non-empty pieces of the
    pathname between slashes, with the first one replaced by the selected
    code when it is a locale, and the selected code put in front
    otherwise. *)
Definition rewritten (locale_keys : list string) (pathname code : string)
  : list string :=
  match filter (fun s => negb (String.eqb s EmptyString))
               (split "/" pathname) with
  | first :: rest =>
      if in_dec string_dec first locale_keys
      then code :: rest
      else code :: first :: rest
  | [] => [code]
  end.

Definition navigated_path (locale_keys : list string)
           (pathname code : string) : string :=
  ("/" ++ join "/" (rewritten locale_keys pathname code))%string.

(** The path after the leading slash starts with the selected code, and
    the code is a whole segment of it. *)
Definition first_segment_is (code path : string) : Prop :=
  path = ("/" ++ code)%string \/
  exists more, path = ("/" ++ code ++ "/" ++ more)%string.

(** The listener and the dropdown agree: while the component is mounted the
    ref points at its container, the effect has run for the current value of
    [isOpen], and the document holds one listener of the component when the
    dropdown is open and none when it is closed; once the component is gone
    nothing of it is left on the document. *)
Definition Settled {node : Type} (c : Switcher.Component node) : Prop :=
  if Switcher.mounted c then
    Switcher.containerRef c = Some (Switcher.container c) /\
    Switcher.deps c = Switcher.isOpen (Switcher.state c) /\
    if Switcher.isOpen (Switcher.state c)
    then exists h, Switcher.cleanup c = Some h /\ Switcher.listeners c = [h]
    else Switcher.cleanup c = None /\ Switcher.listeners c = []
  else
    Switcher.containerRef c = None /\
    Switcher.cleanup c = None /\
    Switcher.listeners c = [].

(** The arguments of [router.push] among the calls of a handler. *)
Fixpoint navigations (calls : list Switcher.Call) : list string :=
  match calls with
  | [] => []
  | Switcher.router_push path :: rest => path :: navigations rest
  | _ :: rest => navigations rest
  end.

End Spec.

(* ================================================================== *)
(** ** Sample data                                                     *)
(* ================================================================== *)

Module Demo.
Import Js.

Definition english : Contract.LocaleData :=
  {| Contract.name := "English"; Contract.nativeName := "English";
     Contract.flag := "GB"; Contract.rtl := false;
     Contract.dateFormat := "MM/DD/YYYY"; Contract.numberFormat := "1,234.56" |}.

Definition spanish : Contract.LocaleData :=
  {| Contract.name := "Spanish"; Contract.nativeName := "Espanol";
     Contract.flag := "ES"; Contract.rtl := false;
     Contract.dateFormat := "DD/MM/YYYY"; Contract.numberFormat := "1.234,56" |}.

(** A locale without a native name. *)
Definition vietnamese : Contract.LocaleData :=
  {| Contract.name := "Vietnamese"; Contract.nativeName := EmptyString;
     Contract.flag := "VN"; Contract.rtl := false;
     Contract.dateFormat := "DD/MM/YYYY"; Contract.numberFormat := "1.234,56" |}.

Definition locales : Obj Contract.LocaleData :=
  mkObj [("en", english); ("es", spanish); ("vi", vietnamese)] eq_refl.

Definition config (currentLocale searchValue : string)
  : Contract.LanguageSwitcherConfig :=
  {| Contract.locales := Some locales;
     Contract.currentLocale := Some currentLocale;
     Contract.searchValue := Some searchValue;
     Contract.isOpen := None;
     Contract.triggerLabel := None;
     Contract.searchPlaceholder := None |}.

Definition props : Switcher.LanguageSwitcherProps :=
  {| Switcher.locales := locales;
     Switcher.currentLocale := "en";
     Switcher.className := None |}.

(** A document whose nodes are named by their path from the root: a node
    contains the nodes whose path extends its own. *)
Fixpoint extends (a b : list nat) : bool :=
  match a, b with
  | [], _ => true
  | x :: a', y :: b' => Nat.eqb x y && extends a' b'
  | _ :: _, [] => false
  end.

#[export] Instance dom : Switcher.Dom (list nat) :=
  {| Switcher.contains := extends |}.

Definition no_view : Contract.LanguageView :=
  {| Contract.trigger :=
       {| Contract.trigger_label := None;
          Contract.trigger_flag := None;
          Contract.trigger_isOpen := false |};
     Contract.search :=
       {| Contract.placeholder := EmptyString;
          Contract.value := EmptyString |};
     Contract.items := [];
     Contract.filteredItems := [] |}.

(** The view of a configuration, when it has one. *)
Definition view_of (c : Contract.LanguageSwitcherConfig)
  : Contract.LanguageView :=
  match Contract.buildLanguageView (H := AsciiHost.host) c with
  | Normal v => v
  | Throw _ => no_view
  end.

Definition blank : Switcher.Component (list nat) :=
  {| Switcher.props := props; Switcher.pathname := EmptyString;
     Switcher.container := [];
     Switcher.mounted := false;
     Switcher.state :=
       {| Switcher.isOpen := false; Switcher.searchValue := EmptyString |};
     Switcher.containerRef := None;
     Switcher.view := no_view;
     Switcher.deps := false;
     Switcher.cleanup := None;
     Switcher.listeners := [];
     Switcher.generation := 0;
     Switcher.pushed := [] |}.

(** The switcher on the page [/en/about], rendered as the node [0.2] of
    the document. *)
Definition fresh : Switcher.Component (list nat) :=
  match Switcher.mount (host := AsciiHost.host) props "/en/about" [0; 2] with
  | Normal c => c
  | Throw _ => blank
  end.

(** The same after a click on the trigger, and after typing a query. *)
Definition opened : Switcher.Component (list nat) :=
  Switcher.step (host := AsciiHost.host) fresh Switcher.click_trigger.

Definition searching : Switcher.Component (list nat) :=
  Switcher.step (host := AsciiHost.host) opened (Switcher.input "es").

(** Environments: a server without browser globals, and a phone. *)
Definition server : Browser.Env :=
  {| Browser.window := None; Browser.document := None;
     Browser.navigator := None |}.

Definition phone : Browser.Env :=
  {| Browser.window :=
       Some {| Browser.innerWidth := 390; Browser.innerHeight := 844 |};
     Browser.document :=
       Some {| Browser.documentElement :=
                 {| Browser.properties := ["onclick"; "ontouchstart"] |} |};
     Browser.navigator :=
       Some {| Browser.userAgent :=
                 "Mozilla/5.0 (Linux; Android 14) Chrome/126.0 Mobile Safari/537.36";
               Browser.maxTouchPoints := 5;
               Browser.platform := "Linux armv8l" |} |}.

End Demo.

(* ================================================================== *)
(** ** lib/utils/browser.tsx, the rest                                 *)
(* ================================================================== *)

Module BrowserInfo.
Import Js Browser.

Record Viewport : Type := mkViewport { width : Z; height : Z }.

(** The object [getBrowserInfo] returns; [viewport] is [None] for [null]. *)
Record Info : Type := mkInfo {
  name : BrowserName;
  info_hasTouch : TouchSupport;
  isMobile : MobileSupport;
  info_userAgent : string;
  viewport : option Viewport;
  info_platform : string
}.

(** Lines 146-153: what the [catch] of [getBrowserInfo] returns. *)
Definition fallback : Info :=
  {| name := Unknown;
     info_hasTouch := no_touch;
     isMobile := no_mobile;
     info_userAgent := EmptyString;
     viewport := None;
     info_platform := EmptyString |}.

(** Lines 131-155.  The properties of the object literal are evaluated in
    the order they are written. *)
Definition getBrowserInfo `{StringHost} (env : Env) : Run Info :=
  try_catch
    (name <- getUserAgent env ;;
     touch <- hasTouch env ;;
     mobile <- hasMobile env ;;
     agent <- (if negb (undefined (navigator env))
               then nav <- global "navigator" (navigator env) ;;
                    ret (userAgent nav)
               else ret EmptyString) ;;
     view <- (if negb (undefined (window env))
              then win <- global "window" (window env) ;;
                   ret (Some {| width := innerWidth win;
                                height := innerHeight win |})
              else ret None) ;;
     plat <- (if negb (undefined (navigator env))
              then nav <- global "navigator" (navigator env) ;;
                   ret (platform nav)
              else ret EmptyString) ;;
     ret {| name := name;
            info_hasTouch := touch;
            isMobile := mobile;
            info_userAgent := agent;
            viewport := view;
            info_platform := plat |})
    (fun error =>
       console_warn "Error getting browser info:" error ;;;
       ret fallback).

(** Lines 162-164. *)
Definition isSSR (env : Env) : Run bool := ret (undefined (window env)).

(** The line [hasTouch] writes to the console when its [catch] runs. *)
Definition touch_warning : string * JsError :=
  ("Error detecting touch support:",
   ReferenceError "navigator is not defined").

(** The browsers in the order [getUserAgent] tries them, each with the words
    that name it. *)
Definition browser_table : list (list string * BrowserName) :=
  [(["brave"], Brave); (["samsung"], Samsung); (["opr"; "opera"], Opera);
   (["edg"], Edge); (["chrome"], Chrome); (["safari"], Safari);
   (["firefox"], Firefox)].

(** The first browser of the table one of whose words occurs in [agent]. *)
Definition first_named (agent : string) : BrowserName :=
  match find (fun entry => existsb (includes agent) (fst entry))
             browser_table with
  | Some entry => snd entry
  | None => Unknown
  end.

(** The words [getUserAgent] looks for. *)
Definition browser_words : list string :=
  ["brave"; "samsung"; "opr"; "opera"; "edg"; "chrome"; "safari"; "firefox"].

End BrowserInfo.

(* ================================================================== *)
(** ** lib/utils/classname.tsx                                         *)
(* ================================================================== *)

Module Classname.
Import Js.

(** The host's [String.prototype.trim]: it removes white space at both
    ends, so it leaves the empty string and its own results as they are. *)
Class TrimHost : Type := {
  trim : string -> string;
  trim_empty : trim EmptyString = EmptyString;
  trim_idempotent : forall s, trim (trim s) = trim s
}.

Section WithTrim.
Context {host : TrimHost}.

(** [element?.trim()] as a condition: an absent element is falsy. *)
Definition element_given (element : option string) : bool :=
  match element with
  | Some e => truthy (trim e)
  | None => false
  end.

(** [classname?.length] as a condition. *)
Definition classname_given (classname : option (list string)) : bool :=
  match classname with
  | Some l => negb (Nat.eqb (List.length l) 0)
  | None => false
  end.

(** The predicate of the filter, line 16. *)
Definition usable (c : string) : bool := truthy c && truthy (trim c).

(** The function of the map, lines 17-20. *)
Definition prefixed (element : option string) (c : string) : string :=
  let cleanClass := trim c in
  if element_given element
  then (trim (default EmptyString element) ++ "-" ++ cleanClass)%string
  else cleanClass.

(** Lines 10-22: the array [parts]. *)
Definition parts (element : option string) (classname : option (list string))
  : list string :=
  let parts := [] in
  let parts :=
    if element_given element
    then parts ++ [trim (default EmptyString element)]
    else parts in
  if classname_given classname
  then parts ++ map (prefixed element)
                    (filter usable (default [] classname))
  else parts.

(** Lines 6-25. *)
Definition bemClassnames (element : option string)
           (classname : option (list string)) : string :=
  if negb (element_given element) && negb (classname_given classname)
  then EmptyString
  else join " " (parts element classname).

End WithTrim.

End Classname.

(** A host whose [trim] removes the ASCII white space (tab, line feed,
    vertical tab, form feed, carriage return, space); the examples run on
    it. *)
Module AsciiTrim.

Definition is_space (c : ascii) : bool :=
  let n := nat_of_ascii c in
  (Nat.leb 9 n && Nat.leb n 13) || Nat.eqb n 32.

Fixpoint trimStart (s : string) : string :=
  match s with
  | EmptyString => EmptyString
  | String c s' => if is_space c then trimStart s' else s
  end.

Fixpoint trimEnd (s : string) : string :=
  match s with
  | EmptyString => EmptyString
  | String c s' =>
      match trimEnd s' with
      | EmptyString => if is_space c then EmptyString
                       else String c EmptyString
      | r => String c r
      end
  end.

Definition trim (s : string) : string := trimEnd (trimStart s).

Lemma trimEnd_fixed (s : string) : trimEnd (trimEnd s) = trimEnd s.
Proof.
  induction s as [|c s IH]; [reflexivity|].
  cbn [trimEnd]. destruct (trimEnd s) as [|d r] eqn:E.
  - destruct (is_space c) eqn:Hc; [reflexivity|].
    cbn [trimEnd]. now rewrite Hc.
  - change (trimEnd (String c (String d r))) with
      (match trimEnd (String d r) with
       | EmptyString => if is_space c then EmptyString
                        else String c EmptyString
       | r' => String c r'
       end).
    now rewrite IH.
Qed.

Lemma trimEnd_head (c : ascii) (s : string) :
  is_space c = false ->
  exists r, trimEnd (String c s) = String c r.
Proof.
  intros Hc. cbn [trimEnd]. destruct (trimEnd s).
  - rewrite Hc. now exists EmptyString.
  - eauto.
Qed.

Lemma trimStart_fixed (c : ascii) (s : string) :
  is_space c = false -> trimStart (String c s) = String c s.
Proof. intros Hc. cbn [trimStart]. now rewrite Hc. Qed.

Lemma trimStart_head (s : string) :
  trimStart s = EmptyString \/
  exists c r, trimStart s = String c r /\ is_space c = false.
Proof.
  induction s as [|c s IH]; [now left|].
  cbn [trimStart]. destruct (is_space c) eqn:Hc; [assumption|].
  right. now exists c, s.
Qed.

Lemma trim_fixed (s : string) : trim (trim s) = trim s.
Proof.
  unfold trim. destruct (trimStart_head s) as [->|(c & r & -> & Hc)].
  - reflexivity.
  - destruct (trimEnd_head c r Hc) as [r' E]. rewrite E.
    rewrite (trimStart_fixed c r' Hc), <- E. apply trimEnd_fixed.
Qed.

#[export] Instance host : Classname.TrimHost :=
  {| Classname.trim := trim;
     Classname.trim_empty := eq_refl;
     Classname.trim_idempotent := trim_fixed |}.

End AsciiTrim.

(* ================================================================== *)
(** ** lib/i18n/routing.tsx and the static parameters of the page      *)
(* ================================================================== *)

Module Routing.
Import Js.

(** Lines 11-14: what [defineRouting] is given; both values come from
    [content/i18n/locale.json]. *)
Record Config : Type := mkRouting {
  locales : list string;
  defaultLocale : string
}.

(** The route parameters once the promise has resolved; [None] is a route
    without the optional [locale] segments. *)
Record Params : Type := mkParams { locale : option (list string) }.

Record LocaleOfParams : Type := mkLocaleOfParams {
  localeArray : list string;
  currentLocale : string;
  isValidLocale : bool
}.

(** Lines 28-37.  [localeArray[0] || defaultLocale]: an index out of range
    reads [undefined], and an empty first segment is falsy too. *)
Definition getLocaleFromParams (routing : Config) (resolvedParams : Params)
  : LocaleOfParams :=
  let localeArray := default [] (locale resolvedParams) in
  let currentLocale :=
    match nth_error localeArray 0 with
    | Some first => or_else first (defaultLocale routing)
    | None => defaultLocale routing
    end in
  {| localeArray := localeArray;
     currentLocale := currentLocale;
     isValidLocale :=
       Nat.eqb (List.length localeArray) 0 ||
       array_includes (locales routing) currentLocale |}.

(** [generateStaticParams] of the page: the route without a locale, then one
    route per supported locale. *)
Definition generateStaticParams (routing : Config) : list Params :=
  {| locale := Some [] |} ::
  map (fun l => {| locale := Some [l] |}) (locales routing).

End Routing.

(* ================================================================== *)
(** ** render/render.tsx                                               *)
(* ================================================================== *)

Module Render.
Import Js.

(** Lines 58-62.  [onToggle] takes no argument: it is the calls it makes. *)
Record LanguageSwitcherHandlers : Type := mkHandlers {
  onToggle : list Switcher.Call;
  onSearch : string -> list Switcher.Call;
  onSelect : string -> list Switcher.Call
}.

(** The elements the traversal creates, one constructor per slot of the
    component map it uses, with the props it passes. *)
#[warnings="-register-all"]
Inductive Element : Type :=
| Root (children : list Element)
| Trigger (label flag : option string) (isOpen : bool)
          (onClick : list Switcher.Call)
| Dropdown (isOpen : bool) (children : list Element)
| SearchInput (placeholder value : string)
              (onChange : string -> list Switcher.Call)
| ItemsList (children : list Element)
| Item (key : string) (item : Contract.LanguageItem)
       (onClick : string -> list Switcher.Call).

(** Lines 75-115. *)
Definition renderLanguageSwitcher (view : Contract.LanguageView)
           (handlers : LanguageSwitcherHandlers) : Element :=
  Root
    [Trigger (Contract.trigger_label (Contract.trigger view))
             (Contract.trigger_flag (Contract.trigger view))
             (Contract.trigger_isOpen (Contract.trigger view))
             (onToggle handlers);
     Dropdown (Contract.trigger_isOpen (Contract.trigger view))
       [SearchInput (Contract.placeholder (Contract.search view))
                    (Contract.value (Contract.search view))
                    (onSearch handlers);
        ItemsList
          (map (fun item => Item (Contract.code item) item (onSelect handlers))
               (Contract.filteredItems view))]].

(** The handlers of a render of the switcher, lines 82-136 of
    LanguageSwitcher.tsx, and what the render passes to the traversal,
    line 141. *)
Definition handlers_of {node : Type} (c : Switcher.Component node)
  : LanguageSwitcherHandlers :=
  {| onToggle := Switcher.onToggle (Switcher.isOpen (Switcher.state c));
     onSearch := Switcher.onSearch;
     onSelect := Switcher.onSelect (Switcher.props c) (Switcher.pathname c) |}.

Definition output {node : Type} (c : Switcher.Component node) : Element :=
  renderLanguageSwitcher (Switcher.view c) (handlers_of c).

(** The [Item] elements of a tree, in document order, and their keys. *)
Fixpoint options (e : Element) : list Element :=
  match e with
  | Root children | Dropdown _ children | ItemsList children =>
      flat_map options children
  | Item _ _ _ => [e]
  | Trigger _ _ _ _ | SearchInput _ _ _ => []
  end.

Definition key_of (e : Element) : option string :=
  match e with
  | Item key _ _ => Some key
  | _ => None
  end.

End Render.

(* ================================================================== *)
(** ** More of the words of the properties                             *)
(* ================================================================== *)

Module Words.
Import Js.

(** A path segment that survives a split on the slash: not empty and
    without a slash. *)
Fixpoint slash_free (s : string) : bool :=
  match s with
  | EmptyString => true
  | String c s' => negb (Ascii.eqb c "/") && slash_free s'
  end.

Definition clean_segment (s : string) : bool := truthy s && slash_free s.

(** The segments of a pathname, as the switcher reads them. *)
Definition segments_of (pathname : string) : list string :=
  filter truthy (split "/" pathname).

(** What the rewrite keeps of a pathname: its segments without a leading
    locale. *)
Definition kept (locales : Obj Contract.LocaleData) (pathname : string)
  : list string :=
  match segments_of pathname with
  | first :: rest =>
      if array_includes (keys locales) first then rest else first :: rest
  | [] => []
  end.

(** The view is the one of the current props and state. *)
Definition Fresh {node : Type} `{StringHost} (c : Switcher.Component node)
  : Prop :=
  Switcher.mounted c = true ->
  Contract.buildLanguageView
    (Switcher.config (Switcher.props c) (Switcher.state c))
  = Normal (Switcher.view c).

(** The events of the user, as opposed to those of the parent. *)
Definition user_event {node : Type} (e : Switcher.Event node) : bool :=
  match e with
  | Switcher.rerender _ _ | Switcher.leave => false
  | _ => true
  end.

(** What [buildLanguageView] throws, if it throws. *)
Definition verdict `{StringHost} (config : Contract.LanguageSwitcherConfig)
  : option JsError :=
  match Contract.buildLanguageView config with
  | Normal _ => None
  | Throw e => Some e
  end.

(** The current locale names nothing the lookup can find in the record:
    neither an own key nor a member inherited from [Object.prototype]. *)
Definition currentLocale_not_found (config : Contract.LanguageSwitcherConfig)
  : Prop :=
  match Contract.locales config, Contract.currentLocale config with
  | Some locales, Some currentLocale =>
      ~ In currentLocale (keys locales) /\
      ~ In currentLocale inherited_names
  | _, _ => False
  end.

(** The three messages of [buildLanguageView]. *)
Definition locales_required : string :=
  "Locales configuration is required and cannot be empty".

Definition current_required : string := "Current locale is required".

Definition not_found (currentLocale : string) : string :=
  ("Current locale " ++ String "034" currentLocale ++
   String "034" " not found in locales configuration")%string.

End Words.

(* ================================================================== *)
(** ** More sample data                                                *)
(* ================================================================== *)

Module Samples.
Import Js.

Definition routing : Routing.Config :=
  {| Routing.locales := ["en"; "es"; "vi"]; Routing.defaultLocale := "en" |}.

(** A desktop browser. *)
Definition firefox : Browser.Navigator :=
  {| Browser.userAgent :=
       "Mozilla/5.0 (X11; Linux x86_64; rv:128.0) Gecko/20100101 Firefox/128.0";
     Browser.maxTouchPoints := 0;
     Browser.platform := "Linux x86_64" |}.

Definition desktop : Browser.Env :=
  {| Browser.window :=
       Some {| Browser.innerWidth := 1440; Browser.innerHeight := 900 |};
     Browser.document :=
       Some {| Browser.documentElement :=
                 {| Browser.properties := ["onclick"] |} |};
     Browser.navigator := Some firefox |}.

(** A window and a document, yet no navigator. *)
Definition headless : Browser.Env :=
  {| Browser.window :=
       Some {| Browser.innerWidth := 1280; Browser.innerHeight := 720 |};
     Browser.document :=
       Some {| Browser.documentElement :=
                 {| Browser.properties := ["ontouchstart"] |} |};
     Browser.navigator := None |}.

(** Props whose current locale the record does not have. *)
Definition french_props : Switcher.LanguageSwitcherProps :=
  {| Switcher.locales := Demo.locales;
     Switcher.currentLocale := "fr";
     Switcher.className := None |}.

End Samples.

(* ================================================================== *)
(** ** Facts about the JavaScript values                               *)
(* ================================================================== *)

Module JsFacts.
Import Js.

Lemma starts_with_iff (s t : string) :
  starts_with s t = true <-> exists post, s = (t ++ post)%string.
Proof.
  revert s; induction t as [|c t IH]; intros s; simpl.
  - split; [intros _; now exists s | reflexivity].
  - destruct s as [|d s].
    + split; [discriminate | intros [post E]; discriminate].
    + rewrite andb_true_iff, IH, Ascii.eqb_eq.
      split.
      * intros [-> [post ->]]. now exists post.
      * intros [post E]. injection E as -> ->. split; [reflexivity|].
        now exists post.
Qed.

(** [s.includes(t)] holds exactly when [t] is a substring of [s]. *)
Lemma includes_iff (s t : string) :
  includes s t = true <-> exists pre post, s = (pre ++ t ++ post)%string.
Proof.
  induction s as [|c s IH]; simpl.
  - rewrite orb_false_r, starts_with_iff. split.
    + intros [post E]. now exists EmptyString, post.
    + intros [pre [post E]]. destruct pre; simpl in E.
      * now exists post.
      * discriminate.
  - rewrite orb_true_iff, IH, starts_with_iff. split.
    + intros [[post E]|[pre [post E]]].
      * now exists EmptyString, post.
      * exists (String c pre), post. simpl. now rewrite E.
    + intros [pre [post E]]. destruct pre as [|d pre]; simpl in E.
      * left. now exists post.
      * right. injection E as _ E. now exists pre, post.
Qed.

Lemma includes_empty (s : string) : includes s EmptyString = true.
Proof. apply includes_iff. now exists EmptyString, s. Qed.

Lemma truthy_false (s : string) : truthy s = false <-> s = EmptyString.
Proof. destruct s; simpl; split; congruence. Qed.

Lemma truthy_true (s : string) : truthy s = true <-> s <> EmptyString.
Proof. destruct s; simpl; split; congruence. Qed.

(** [split] never returns the empty array, and [join] undoes it. *)
Lemma split_not_nil (sep : ascii) (s : string) : split sep s <> [].
Proof.
  destruct s as [|c s]; simpl; [discriminate|].
  destruct (Ascii.eqb c sep); [discriminate|].
  destruct (split sep s); discriminate.
Qed.

Lemma join_split (sep : ascii) (s : string) :
  join (String sep EmptyString) (split sep s) = s.
Proof.
  induction s as [|c s IH]; [reflexivity|].
  pose proof (split_not_nil sep s) as Hnil.
  cbn [split].
  destruct (Ascii.eqb_spec c sep) as [->|Hne];
    destruct (split sep s) as [|w ws]; try contradiction.
  - rewrite <- IH. reflexivity.
  - destruct ws as [|w' ws]; rewrite <- IH; reflexivity.
Qed.

Lemma array_includes_iff (l : list string) (x : string) :
  array_includes l x = true <-> In x l.
Proof.
  unfold array_includes. rewrite existsb_exists. split.
  - intros [y [Hin E]]. apply String.eqb_eq in E. now subst.
  - intros Hin. exists x. split; [assumption | apply String.eqb_refl].
Qed.

Lemma distinct_NoDup (l : list string) : distinct l = true -> NoDup l.
Proof.
  induction l as [|k ks IH]; simpl; intros Hd; constructor.
  - apply andb_prop in Hd as [Hk _]. apply negb_true_iff in Hk.
    intros Hin. apply array_includes_iff in Hin.
    unfold array_includes in Hin. congruence.
  - apply andb_prop in Hd as [_ Hks]. auto.
Qed.

Lemma keys_NoDup {V} (o : Obj V) : NoDup (keys o).
Proof. apply distinct_NoDup, entries_distinct. Qed.

Lemma find_key_none {V} (l : list (string * V)) (k : string) :
  find (fun kv => String.eqb (fst kv) k) l = None <-> ~ In k (map fst l).
Proof.
  induction l as [|[k' v] l IH]; simpl.
  - tauto.
  - destruct (String.eqb_spec k' k) as [->|Hne].
    + split; [discriminate | intros Hn; exfalso; apply Hn; now left].
    + rewrite IH. tauto.
Qed.

Lemma find_key_some {V} (l : list (string * V)) (k : string) (v : V) :
  find (fun kv => String.eqb (fst kv) k) l = Some (k, v) -> In (k, v) l.
Proof. intros Hf. now apply find_some in Hf as [Hin _]. Qed.

(** [o[k]] is [undefined] exactly when [k] is not a key of [o]. *)
Lemma get_none {V} (o : Obj V) (k : string) :
  get o k = None <-> ~ In k (keys o).
Proof.
  unfold get, keys. rewrite <- find_key_none.
  destruct (find _ (entries o)); simpl; split; congruence.
Qed.

Lemma get_some {V} (o : Obj V) (k : string) (v : V) :
  get o k = Some v <-> In (k, v) (entries o).
Proof.
  unfold get. split.
  - destruct (find _ (entries o)) as [[k' v']|] eqn:Hf; simpl; [|discriminate].
    intros E. injection E as ->.
    apply find_some in Hf as [Hin Hk]. simpl in Hk.
    apply String.eqb_eq in Hk. now subst.
  - pose proof (entries_distinct o) as Hd. revert Hd.
    induction (entries o) as [|[k' v'] l IH]; simpl; intros Hd Hin.
    + contradiction.
    + apply andb_prop in Hd as [Hk Hd].
      destruct Hin as [E|Hin].
      * injection E as -> ->. now rewrite String.eqb_refl.
      * destruct (String.eqb_spec k' k) as [->|Hne]; [|auto].
        exfalso. apply negb_true_iff in Hk.
        assert (Hk' : array_includes (map fst l) k = true).
        { apply array_includes_iff. now apply (in_map fst) in Hin. }
        unfold array_includes in Hk'. congruence.
Qed.

(** [o[k]] finds an own property before anything inherited. *)
Lemma lookup_own {V} (o : Obj V) (k : string) (v : V) :
  get o k = Some v -> lookup o k = Some (Own v).
Proof. unfold lookup. now intros ->. Qed.

Lemma lookup_key {V} (o : Obj V) (k : string) :
  In k (keys o) -> exists v, get o k = Some v /\ lookup o k = Some (Own v).
Proof.
  intros Hin. destruct (get o k) as [v|] eqn:Hg.
  - exists v. split; [reflexivity | now apply lookup_own].
  - apply get_none in Hg. contradiction.
Qed.

(** [o[k]] is [undefined] exactly when [k] is neither an own key of [o] nor
    the name of a member of [Object.prototype]. *)
Lemma lookup_none {V} (o : Obj V) (k : string) :
  lookup o k = None <-> ~ In k (keys o) /\ ~ In k inherited_names.
Proof.
  unfold lookup, inherited_names.
  destruct (get o k) as [v|] eqn:Hg.
  - split; [discriminate|]. intros [Hn _].
    apply get_none in Hn. congruence.
  - apply get_none in Hg. rewrite <- find_key_none.
    destruct (find _ prototype_members); simpl; split.
    + discriminate.
    + intros [_ H]. discriminate.
    + intros _. split; [assumption | reflexivity].
    + reflexivity.
Qed.

Lemma lookup_inherited {V} (o : Obj V) (k : string) :
  ~ In k (keys o) -> In k inherited_names ->
  exists member_name, lookup o k = Some (Inherited member_name).
Proof.
  intros Hn Hin. destruct (lookup o k) as [[v|m]|] eqn:E.
  - unfold lookup in E. apply get_none in Hn. rewrite Hn in E.
    destruct (find _ prototype_members); discriminate.
  - eauto.
  - apply lookup_none in E as [_ E]. contradiction.
Qed.

End JsFacts.

(* ================================================================== *)
(** ** buildLanguageView                                               *)
(* ================================================================== *)

Module ContractFacts.
Import Js JsFacts Contract Spec.

Section WithHost.
Context {host : StringHost}.

(** The view of a configuration that passes the three checks. *)
Lemma buildLanguageView_accepted config view :
  buildLanguageView config = Normal view ->
  exists locales currentLocale found,
    Contract.locales config = Some locales /\
    keys locales <> [] /\
    Contract.currentLocale config = Some currentLocale /\
    currentLocale <> EmptyString /\
    lookup locales currentLocale = Some found /\
    view =
      {| trigger :=
           {| trigger_label :=
                or_undefined (nativeName_of found) (name_of found);
              trigger_flag := flag_of found;
              trigger_isOpen := default false (isOpen config) |};
         search :=
           {| placeholder := default "Search" (searchPlaceholder config);
              value := default EmptyString (searchValue config) |};
         items := map (toItem currentLocale) (entries locales);
         filteredItems :=
           if truthy (default EmptyString (searchValue config))
           then filter (matchesSearch
                          (default EmptyString (searchValue config)))
                       (map (toItem currentLocale) (entries locales))
           else map (toItem currentLocale) (entries locales) |}.
Proof.
  unfold buildLanguageView.
  destruct (Contract.locales config) as [locales|]; [|discriminate].
  destruct (keys locales) as [|k ks] eqn:Hkeys; [discriminate|].
  cbn [List.length Nat.eqb].
  destruct (Contract.currentLocale config) as [current|]; [|discriminate].
  destruct (truthy current) eqn:Ht; [|discriminate].
  cbn [negb].
  destruct (lookup locales current) as [data|] eqn:Hget; [|discriminate].
  intros E. injection E as <-.
  exists locales, current, data.
  rewrite Hkeys. repeat split; try congruence.
  now apply truthy_true.
Qed.

Lemma matchesSearch_iff query item :
  matchesSearch query item = true <->
  ContainsIgnoringCase (label item) query \/
  ContainsIgnoringCase (code item) query.
Proof.
  unfold matchesSearch, ContainsIgnoringCase.
  now rewrite orb_true_iff, !includes_iff.
Qed.

Lemma ContainsIgnoringCase_empty s : ContainsIgnoringCase s EmptyString.
Proof.
  exists EmptyString, (toLowerCase s). now rewrite toLowerCase_empty.
Qed.

End WithHost.

Lemma Selection_filter {A} (P : A -> Prop) (f : A -> bool) (l : list A) :
  (forall x, f x = true <-> P x) -> Selection P l (filter f l).
Proof.
  intros Hf. induction l as [|x l IH]; simpl.
  - constructor.
  - destruct (f x) eqn:Hx.
    + apply select_keep; [now apply Hf | assumption].
    + apply select_drop; [|assumption].
      intros HP. apply Hf in HP. congruence.
Qed.

Lemma Selection_all {A} (P : A -> Prop) (l : list A) :
  (forall x, P x) -> Selection P l l.
Proof.
  intros HP. induction l; constructor; auto.
Qed.

(** A selection is determined by the list and the property. *)
Lemma Selection_unique {A} (P : A -> Prop) (l r r' : list A) :
  Selection P l r -> Selection P l r' -> r = r'.
Proof.
  intros H. revert r'.
  induction H; intros r' H'; inversion H'; subst;
    try reflexivity; try contradiction; auto.
  f_equal. auto.
Qed.

Lemma toItem_code current kv : code (toItem current kv) = fst kv.
Proof. now destruct kv. Qed.

Lemma toItem_isActive current kv :
  isActive (toItem current kv) = true <-> fst kv = current.
Proof. destruct kv as [k v]. simpl. apply String.eqb_eq. Qed.

Lemma or_else_displayed data :
  displayed data (or_else (nativeName data) (name data)).
Proof.
  unfold displayed, or_else.
  destruct (nativeName data); simpl; split; congruence.
Qed.

Section Claims.
Context {host : StringHost}.

(** X26. [buildLanguageView] throws an error exactly when the locales record
    is missing or empty, the current locale is missing or empty, or the
    current locale names nothing the lookup of line 85 can find: neither a
    key of the record nor a member the record inherits from
    [Object.prototype]. *)
Theorem buildLanguageView_throws_iff config :
  (exists message, buildLanguageView config = Throw (Error message)) <->
  locales_missing_or_empty config \/
  currentLocale_missing_or_empty config \/
  Words.currentLocale_not_found config.
Proof.
  unfold locales_missing_or_empty, currentLocale_missing_or_empty,
    Words.currentLocale_not_found, buildLanguageView.
  destruct (Contract.locales config) as [locales|].
  2: { split; eauto. }
  destruct (keys locales) as [|k ks] eqn:Hkeys; cbn [List.length Nat.eqb].
  1: { split; eauto. }
  destruct (Contract.currentLocale config) as [current|].
  2: { split; eauto. }
  destruct (truthy current) eqn:Ht; cbn [negb].
  2: { apply truthy_false in Ht. split; eauto. }
  apply truthy_true in Ht.
  destruct (lookup locales current) as [found|] eqn:Hfound.
  - split.
    + intros [message E]. discriminate.
    + intros [E|[E|Hn]]; [discriminate | contradiction |].
      rewrite <- Hkeys in Hn. apply lookup_none in Hn. congruence.
  - apply lookup_none in Hfound. rewrite Hkeys in Hfound.
    split; eauto.
Qed.

(** C1. [buildLanguageView] does not throw for every current locale that is
    not a key of the locales record: for the current locale 'toString', which
    the sample record does not have, validation fails in the sense of the
    claim, yet the lookup of line 85 finds the function the record inherits
    from [Object.prototype] and a view is returned, with the label
    'toString' and no flag on the trigger. *)
Theorem buildLanguageView_accepts_toString :
  validation_fails (Demo.config "toString" EmptyString) /\
  exists view,
    buildLanguageView (Demo.config "toString" EmptyString) = Normal view /\
    trigger_label (trigger view) = Some "toString" /\
    trigger_flag (trigger view) = None.
Proof.
  split.
  - right. right. cbn. intros [H|[H|[H|[]]]]; discriminate H.
  - eexists. split; [reflexivity|]. split; reflexivity.
Qed.

(** C2. For a configuration that [buildLanguageView] accepts,
    [filteredItems] is the list of exactly those items whose label or code
    contains the search value as a case-insensitive substring, in the
    order of [items]; with an empty search value it is [items]. *)
Theorem filteredItems_are_the_matches config view :
  buildLanguageView config = Normal view ->
  let query := default EmptyString (searchValue config) in
  Selection (fun item => ContainsIgnoringCase (label item) query \/
                         ContainsIgnoringCase (code item) query)
            (items view) (filteredItems view) /\
  (query = EmptyString -> filteredItems view = items view).
Proof.
  intros Hb query.
  apply buildLanguageView_accepted in Hb
    as (locales & current & data & _ & _ & _ & _ & _ & ->).
  cbn [items filteredItems]. fold query.
  destruct (truthy query) eqn:Ht.
  - split.
    + apply Selection_filter. intros item. apply matchesSearch_iff.
    + intros E. apply truthy_true in Ht. contradiction.
  - apply truthy_false in Ht. rewrite Ht. split; [|reflexivity].
    apply Selection_all. intros item. left.
    apply ContainsIgnoringCase_empty.
Qed.

(** X27. For a configuration that [buildLanguageView] accepts and whose
    current locale is a key of the locales record: [items] has one entry per
    key, in the order of the keys; exactly one item is active, the one whose
    code is the current locale; the label of each item is the native name of
    its locale, or the name when the native name is empty; the label and the
    flag of the trigger are those of the current locale. *)
Theorem view_of_own_locale config view locales currentLocale :
  buildLanguageView config = Normal view ->
  Contract.locales config = Some locales ->
  Contract.currentLocale config = Some currentLocale ->
  In currentLocale (keys locales) ->
  exists data shown,
    get locales currentLocale = Some data /\
    map code (items view) = keys locales /\
    (exists before active after,
        items view = before ++ active :: after /\
        code active = currentLocale /\
        isActive active = true /\
        Forall (fun item => isActive item = false /\
                            code item <> currentLocale)
               (before ++ after)) /\
    Forall2 (fun kv item => code item = fst kv /\
                            displayed (snd kv) (label item) /\
                            item_flag item = flag (snd kv))
            (entries locales) (items view) /\
    trigger_label (trigger view) = Some shown /\
    displayed data shown /\
    trigger_flag (trigger view) = Some (flag data).
Proof.
  intros Hb Hl Hc Hkey.
  apply buildLanguageView_accepted in Hb
    as (locales' & current & found & Hl' & _ & Hc' & _ & Hfound & ->).
  assert (locales' = locales) by congruence.
  assert (current = currentLocale) by congruence. subst.
  destruct (lookup_key locales currentLocale Hkey) as (data & Hget & Hown).
  assert (found = Own data) by congruence. subst found.
  exists data, (or_else (nativeName data) (name data)).
  cbn [items trigger trigger_label trigger_flag nativeName_of name_of flag_of].
  split; [assumption|]. split; [|split; [|split; [|split; [|split]]]].
  - unfold keys. rewrite map_map. apply map_ext. apply toItem_code.
  - pose proof (keys_NoDup locales) as Hnd. unfold keys in Hnd.
    apply get_some in Hget. apply in_split in Hget as (l1 & l2 & E).
    rewrite E in *. clear E.
    exists (map (toItem currentLocale) l1),
           (toItem currentLocale (currentLocale, data)),
           (map (toItem currentLocale) l2).
    rewrite map_app. cbn [map]. repeat split.
    + simpl. apply String.eqb_refl.
    + rewrite map_app in Hnd. cbn [map fst] in Hnd.
      apply NoDup_remove_2 in Hnd. rewrite <- map_app in Hnd.
      rewrite <- map_app. apply Forall_forall. intros item Hin.
      apply in_map_iff in Hin as (kv & <- & Hin).
      assert (Hne : fst kv <> currentLocale).
      { intros <-. apply Hnd. now apply in_map. }
      rewrite toItem_code. split; [|assumption].
      destruct (isActive (toItem currentLocale kv)) eqn:Ha; [|reflexivity].
      apply toItem_isActive in Ha. contradiction.
  - induction (entries locales) as [|[k v] l IH]; simpl; constructor.
    + simpl. repeat split; try apply or_else_displayed.
    + assumption.
  - unfold or_undefined, or_else. now destruct (nativeName data).
  - apply or_else_displayed.
  - reflexivity.
Qed.

(** C8. A configuration that [buildLanguageView] accepts need not have an
    active item: for the current locale 'toString' the sample record is
    accepted, through the function it inherits from [Object.prototype], and
    the view has one item per key, none of them active, the label 'toString'
    on the trigger and no flag. *)
Theorem view_of_toString_has_no_active_item :
  exists view,
    buildLanguageView (Demo.config "toString" EmptyString) = Normal view /\
    map code (items view) = keys Demo.locales /\
    Forall (fun item => isActive item = false) (items view) /\
    trigger_label (trigger view) = Some "toString" /\
    trigger_flag (trigger view) = None.
Proof.
  eexists. split; [reflexivity|].
  split; [reflexivity|]. split; [|split; reflexivity].
  repeat constructor.
Qed.

End Claims.

End ContractFacts.

(* ================================================================== *)
(** ** The environment helpers                                         *)
(* ================================================================== *)

Module BrowserFacts.
Import Js Browser.

(** A [try]/[catch] whose handler returns does not throw. *)
Lemma try_catch_returns {A} (body : Run A) (handler : JsError -> Run A) k :
  (forall e k', exists a k'', handler e k' = (Normal a, k'')) ->
  exists a k', try_catch body handler k = (Normal a, k').
Proof.
  intros Hh. unfold try_catch.
  destruct (body k) as [[a|e] k']; eauto.
Qed.

(** [hasTouch] returns in every environment. *)
Lemma hasTouch_returns env k :
  exists touch k', hasTouch env k = (Normal touch, k').
Proof.
  unfold hasTouch.
  destruct (undefined (window env) || undefined (document env)).
  - now exists no_touch, k.
  - apply try_catch_returns. intros e k'.
    now exists no_touch, (k' ++ [("Error detecting touch support:", e)]).
Qed.

(** With a window and a document but no navigator, [hasTouch] reaches the
    read of [navigator], and the [catch] answers. *)
Example hasTouch_without_navigator :
  hasTouch {| window := Some {| innerWidth := 1280; innerHeight := 720 |};
              document := Some {| documentElement :=
                                    {| properties := ["ontouchstart"] |} |};
              navigator := None |} []
  = (Normal no_touch,
     [("Error detecting touch support:",
       ReferenceError "navigator is not defined")]).
Proof. reflexivity. Qed.

Example phone_is_mobile :
  hasMobile Demo.phone [] = (Normal has_mobile, []).
Proof. reflexivity. Qed.

Example phone_runs_chrome :
  getUserAgent (H := AsciiHost.host) Demo.phone [] = (Normal Chrome, []).
Proof. reflexivity. Qed.

Section Claims.
Context {host : StringHost}.

(** C6. Every environment helper returns its safe default, and does not
    throw, when the browser globals it reads are unavailable: [hasTouch]
    returns 'no-touch' when [window] or [document] is undefined,
    [hasMobile] returns 'no-mobile' when [window] or [navigator] is
    undefined, [isUserAgent] returns false and [getUserAgent] returns
    'Unknown' when [navigator] is undefined. *)
Theorem helpers_default_without_globals env console :
  (window env = None \/ document env = None ->
   hasTouch env console = (Normal no_touch, console)) /\
  (window env = None \/ navigator env = None ->
   hasMobile env console = (Normal no_mobile, console)) /\
  (navigator env = None ->
   forall agent, isUserAgent env agent console = (Normal false, console)) /\
  (navigator env = None ->
   getUserAgent env console = (Normal Unknown, console)).
Proof.
  repeat split.
  - intros [E|E]; unfold hasTouch; rewrite E; simpl.
    + reflexivity.
    + now rewrite orb_true_r.
  - intros [E|E]; unfold hasMobile; rewrite E; simpl.
    + reflexivity.
    + now rewrite orb_true_r.
  - intros E agent. unfold isUserAgent. now rewrite E.
  - intros E. unfold getUserAgent. now rewrite E.
Qed.

End Claims.

End BrowserFacts.

(* ================================================================== *)
(** ** The handlers of the switcher                                    *)
(* ================================================================== *)

Module HandlerFacts.
Import Js JsFacts Switcher Spec.

Lemma filter_truthy (l : list string) :
  filter truthy l = filter (fun s => negb (String.eqb s EmptyString)) l.
Proof. apply filter_ext. intros [|c s]; reflexivity. Qed.

(** The array the handler mutates is the one the words describe. *)
Lemma newSegments_rewritten locales pathname code :
  newSegments locales pathname code = rewritten (keys locales) pathname code.
Proof.
  unfold newSegments, rewritten. rewrite <- filter_truthy.
  destruct (filter truthy (split "/" pathname)) as [|first rest];
    [reflexivity|].
  cbn [List.length Nat.ltb Nat.leb andb first_is_locale nth_error].
  destruct (in_dec string_dec first (keys locales)) as [Hin|Hn].
  - apply array_includes_iff in Hin. now rewrite Hin.
  - destruct (array_includes (keys locales) first) eqn:E; [|reflexivity].
    apply array_includes_iff in E. contradiction.
Qed.

(** After the rewrite the selected code is the first segment. *)
Lemma newSegments_head locales pathname code :
  exists rest, newSegments locales pathname code = code :: rest.
Proof.
  unfold newSegments.
  destruct (filter truthy (split "/" pathname)) as [|first rest].
  - now exists [].
  - cbn [List.length Nat.ltb Nat.leb andb].
    destruct (first_is_locale locales (first :: rest)).
    + now exists rest.
    + now exists (first :: rest).
Qed.

Lemma newPath_joined locales pathname code :
  newPath locales pathname code =
  ("/" ++ join "/" (newSegments locales pathname code))%string.
Proof.
  unfold newPath.
  destruct (newSegments_head locales pathname code) as [rest ->].
  reflexivity.
Qed.

Lemma onSelect_other props pathname code :
  code <> currentLocale props ->
  onSelect props pathname code =
  [setIsOpen (to false); setSearchValue EmptyString;
   router_push (newPath (locales props) pathname code)].
Proof.
  intros Hne. unfold onSelect.
  destruct (String.eqb_spec code (currentLocale props)); [contradiction|].
  reflexivity.
Qed.

Example rewrite_replaces_locale :
  newPath Demo.locales "/en/about/" "es" = "/es/about".
Proof. reflexivity. Qed.

Example rewrite_prepends_locale :
  newPath Demo.locales "/about" "es" = "/es/about".
Proof. reflexivity. Qed.

Example rewrite_of_root :
  newPath Demo.locales "/" "vi" = "/vi".
Proof. reflexivity. Qed.

(** C3. When a language other than the current locale is selected, the
    navigated path is computed from the pathname split on '/' without its
    empty segments: a first segment that is a key of the locales record is
    replaced by the selected code, otherwise the selected code is put in
    front; the path is '/' followed by the segments joined with '/'. *)
Theorem onSelect_navigates_to_rewritten_path props pathname code :
  code <> currentLocale props ->
  navigations (onSelect props pathname code) =
  [navigated_path (keys (locales props)) pathname code].
Proof.
  intros Hne. rewrite (onSelect_other _ _ _ Hne).
  cbn [navigations]. unfold navigated_path.
  now rewrite newPath_joined, newSegments_rewritten.
Qed.

(** C9. For every pathname and every selected code other than the current
    locale, the path given to [router.push] is '/' followed by the selected
    code as its first segment; the array of segments is never empty after
    the rewrite, so the branch that would produce '/code' from an empty
    array is never taken. *)
Theorem pushed_path_starts_with_code props pathname code :
  code <> currentLocale props ->
  exists path rest,
    navigations (onSelect props pathname code) = [path] /\
    newSegments (locales props) pathname code = code :: rest /\
    path = ("/" ++ join "/" (code :: rest))%string /\
    first_segment_is code path /\
    Nat.ltb 0 (List.length (newSegments (locales props) pathname code))
    = true.
Proof.
  intros Hne. rewrite (onSelect_other _ _ _ Hne). cbn [navigations].
  destruct (newSegments_head (locales props) pathname code) as [rest E].
  exists (newPath (locales props) pathname code), rest.
  rewrite newPath_joined, E. repeat split.
  destruct rest as [|r rest].
  - now left.
  - right. now exists (join "/" (r :: rest)).
Qed.

End HandlerFacts.

(* ================================================================== *)
(** ** The mounted switcher                                            *)
(* ================================================================== *)

Module ComponentFacts.
Import Js JsFacts Switcher Spec.

Section WithDocument.
Context {node : Type} {dom : Dom node} {host : StringHost}.

Implicit Types c : Component node.

(** *** What a render leaves alone *)

Lemma render_state p path s hist c : state (render p path s hist c) = s.
Proof.
  unfold render. destruct (Contract.buildLanguageView _); [|reflexivity].
  now destruct (Bool.eqb _ _).
Qed.

Lemma render_pushed p path s hist c :
  pushed (render p path s hist c) = hist.
Proof.
  unfold render. destruct (Contract.buildLanguageView _); [|reflexivity].
  now destruct (Bool.eqb _ _).
Qed.

Lemma render_pathname p path s hist c :
  pathname (render p path s hist c) = path.
Proof.
  unfold render. destruct (Contract.buildLanguageView _); [|reflexivity].
  now destruct (Bool.eqb _ _).
Qed.

(** An event that is handled ends in the state its calls ask for. *)
Lemma step_handled c e :
  mounted c = true ->
  (forall p path, e <> rerender p path) -> e <> leave ->
  state (step c e) = fst (apply_calls (calls c e) (state c, pushed c)) /\
  pushed (step c e) = snd (apply_calls (calls c e) (state c, pushed c)) /\
  pathname (step c e) = pathname c.
Proof.
  intros Hm Hr Hl. unfold step. rewrite Hm. cbn [negb].
  destruct e;
    try (exfalso; apply Hl; reflexivity);
    try (exfalso; eapply Hr; reflexivity);
    destruct (apply_calls _ _) as [s hist];
    rewrite render_state, render_pushed, render_pathname;
    repeat split.
Qed.

(** *** The listener follows the dropdown *)

Lemma removeEventListener_only h : removeEventListener h [h] = [].
Proof. unfold removeEventListener. simpl. now rewrite Nat.eqb_refl. Qed.

Lemma run_cleanup_eq c c' :
  cleanup c = cleanup c' -> listeners c = listeners c' ->
  run_cleanup c = run_cleanup c'.
Proof. unfold run_cleanup. now intros -> ->. Qed.

Lemma run_cleanup_settled c :
  mounted c = true -> Settled c -> run_cleanup c = [].
Proof.
  unfold Settled, run_cleanup. intros -> (_ & _ & Hl).
  destruct (isOpen (state c)).
  - destruct Hl as (h & -> & ->). apply removeEventListener_only.
  - now destruct Hl as (-> & ->).
Qed.

Lemma render_Settled p path s hist c :
  mounted c = true -> Settled c -> Settled (render p path s hist c).
Proof.
  intros Hm HS. pose proof (run_cleanup_settled c Hm HS) as Hclean.
  unfold Settled in HS. rewrite Hm in HS. destruct HS as (Href & Hdeps & Hl).
  unfold render.
  destruct (Contract.buildLanguageView _) as [v|e].
  - destruct (Bool.eqb (isOpen s) (deps c)) eqn:E.
    + apply eqb_prop in E. unfold Settled.
      cbn [mounted containerRef container deps state cleanup listeners].
      rewrite Hm. repeat split; [assumption | congruence |].
      rewrite E, Hdeps. exact Hl.
    + unfold useEffect, Settled.
      cbn [mounted containerRef container deps state cleanup listeners
           generation].
      rewrite Hm, (run_cleanup_eq _ c), Hclean by reflexivity.
      repeat split; [assumption|].
      destruct (isOpen s); [|now split].
      exists (S (generation c)). now split.
  - unfold unmount, Settled.
    cbn [mounted containerRef container deps state cleanup listeners].
    now rewrite (run_cleanup_eq _ c), Hclean by reflexivity.
Qed.

Lemma mount_Settled p path div c :
  mount p path div = Normal c -> Settled c.
Proof.
  unfold mount, bind.
  destruct (Contract.buildLanguageView _) as [v|e]; [|discriminate].
  intros E. injection E as <-.
  unfold Settled. cbn. now repeat split.
Qed.

Lemma unmount_Settled c : mounted c = true -> Settled c -> Settled (unmount c).
Proof.
  intros Hm HS. pose proof (run_cleanup_settled c Hm HS) as Hclean.
  unfold unmount, Settled.
  cbn [mounted containerRef container deps state cleanup listeners].
  now rewrite Hclean.
Qed.

Lemma step_Settled c e : Settled c -> Settled (step c e).
Proof.
  intros HS. unfold step.
  destruct (mounted c) eqn:Hm; cbn [negb]; [|assumption].
  destruct e;
    try (destruct (apply_calls _ _) as [s hist]);
    auto using render_Settled, unmount_Settled.
Qed.

Lemma Reachable_Settled c : Reachable c -> Settled c.
Proof.
  induction 1 as [p path div c Hmount | c e _ IH].
  - exact (mount_Settled _ _ _ _ Hmount).
  - now apply step_Settled.
Qed.

(** *** Claims *)

(** C4. While the dropdown is open, a mousedown whose target is outside
    the container of the component closes the dropdown and clears the
    search value; a mousedown inside the container leaves both as they
    are. *)
Theorem mousedown_outside_closes c target :
  Reachable c -> mounted c = true -> isOpen (state c) = true ->
  (contains (container c) target = false ->
   state (step c (mousedown target)) =
   {| isOpen := false; searchValue := EmptyString |}) /\
  (contains (container c) target = true ->
   state (step c (mousedown target)) = state c).
Proof.
  intros Hr Hm Ho.
  pose proof (Reachable_Settled c Hr) as HS.
  unfold Settled in HS. rewrite Hm, Ho in HS.
  destruct HS as (Href & _ & h & _ & Hl).
  assert (Hstate : state (step c (mousedown target)) =
                   fst (apply_calls (calls c (mousedown target))
                                    (state c, pushed c))).
  { apply step_handled; [assumption | discriminate | discriminate]. }
  rewrite Hstate. cbn [calls]. rewrite Hl, Href. cbn [flat_map].
  unfold handleClickOutside. rewrite app_nil_r.
  split; intros ->; reflexivity.
Qed.

(** C5. The [onToggle] handler of the trigger flips [isOpen]: from a state
    with the dropdown open it goes to closed and clears the search value;
    from a state with the dropdown closed it goes to open and leaves the
    search value as it is. *)
Theorem onToggle_flips c :
  mounted c = true ->
  (isOpen (state c) = true ->
   onToggle (isOpen (state c)) =
     [setIsOpen negb; setSearchValue EmptyString] /\
   state (step c click_trigger) =
     {| isOpen := false; searchValue := EmptyString |}) /\
  (isOpen (state c) = false ->
   onToggle (isOpen (state c)) = [setIsOpen negb] /\
   state (step c click_trigger) =
     {| isOpen := true; searchValue := searchValue (state c) |}).
Proof.
  intros Hm.
  assert (Hstate : state (step c click_trigger) =
                   fst (apply_calls (calls c click_trigger)
                                    (state c, pushed c))).
  { apply step_handled; [assumption | discriminate | discriminate]. }
  rewrite Hstate. cbn [calls].
  split; intros Ho; rewrite Ho; split; try reflexivity;
    cbn; now rewrite Ho.
Qed.

(** C7. In every state the component reaches, the mousedown listener is
    on the document exactly when the dropdown is open: one listener while
    the component is mounted with the dropdown open, none while the
    dropdown is closed, and none once the component is unmounted. *)
Theorem listener_subscribed_iff_open c :
  Reachable c ->
  List.length (listeners c) =
    (if mounted c && isOpen (state c) then 1 else 0) /\
  (isOpen (state c) = false -> listeners c = []) /\
  listeners (step c leave) = [].
Proof.
  intros Hr.
  assert (Hall : forall c', Settled c' ->
            List.length (listeners c') =
              (if mounted c' && isOpen (state c') then 1 else 0) /\
            (isOpen (state c') = false -> listeners c' = [])).
  { intros c' HS. unfold Settled in HS.
    destruct (mounted c'); cbn [andb].
    - destruct HS as (_ & _ & Hl).
      destruct (isOpen (state c')).
      + destruct Hl as (h & _ & ->). split; [reflexivity | discriminate].
      + destruct Hl as (_ & ->). now split.
    - destruct HS as (_ & _ & ->). now split. }
  pose proof (Reachable_Settled c Hr) as HS.
  destruct (Hall c HS) as [Hlen Hclosed].
  repeat split; try assumption.
  pose proof (step_Settled c leave HS) as HS'.
  unfold step in *. destruct (mounted c) eqn:Hm; cbn [negb] in *.
  - unfold Settled in HS'. cbn [unmount mounted] in HS'.
    now destruct HS' as (_ & _ & ->).
  - now apply length_zero_iff_nil.
Qed.

(** C10. Selecting the language that is the current locale does not
    navigate: [onSelect(currentLocale)] closes the dropdown and clears the
    search value, calls [router.push] not at all, and the pathname stays
    as it is. *)
Theorem select_current_does_not_navigate c :
  mounted c = true ->
  let c' := step c (click_item (currentLocale (props c))) in
  navigations (onSelect (props c) (pathname c) (currentLocale (props c)))
  = [] /\
  state c' = {| isOpen := false; searchValue := EmptyString |} /\
  pushed c' = pushed c /\
  pathname c' = pathname c.
Proof.
  intros Hm c'.
  destruct (step_handled c (click_item (currentLocale (props c))) Hm)
    as (Hs & Hp & Hpath); try discriminate.
  subst c'. rewrite Hs, Hp, Hpath. cbn [calls].
  unfold onSelect. rewrite String.eqb_refl. now cbn.
Qed.

End WithDocument.

End ComponentFacts.

(* ================================================================== *)
(** ** The theorems at work on the sample data                         *)
(* ================================================================== *)

Module Instances.
Import Js Spec Demo AsciiHost.

Lemma fresh_mounted :
  Switcher.mount props "/en/about" [0; 2] = Normal fresh.
Proof. reflexivity. Qed.

Lemma fresh_reachable : Switcher.Reachable fresh.
Proof. exact (Switcher.reach_mount _ _ _ _ fresh_mounted). Qed.

Lemma opened_reachable : Switcher.Reachable opened.
Proof. apply Switcher.reach_step, fresh_reachable. Qed.

Lemma searching_reachable : Switcher.Reachable searching.
Proof. apply Switcher.reach_step, opened_reachable. Qed.

Example search_ES_finds_two :
  map Contract.code (Contract.filteredItems (view_of (config "en" "ES")))
  = ["es"; "vi"].
Proof. reflexivity. Qed.

Example unknown_locale_is_refused :
  Contract.buildLanguageView (config "fr" EmptyString)
  = Throw (Error ("Current locale " ++ String "034" "fr" ++
                  String "034" " not found in locales configuration")).
Proof. reflexivity. Qed.

(** A locale that is nowhere to be found is refused. *)
Lemma french_is_refused :
  exists message,
    Contract.buildLanguageView (config "fr" EmptyString)
    = Throw (Error message).
Proof.
  apply (proj2 (ContractFacts.buildLanguageView_throws_iff
                  (config "fr" EmptyString))).
  right. right. cbn. split; intros H;
    repeat (destruct H as [H|H]; [discriminate H|]); exact H.
Defined.

Lemma filteredItems_of_search_ES :
  Contract.buildLanguageView (config "en" "ES")
  = Normal (view_of (config "en" "ES")) /\
  (Selection (fun item => ContainsIgnoringCase (Contract.label item) "ES" \/
                          ContainsIgnoringCase (Contract.code item) "ES")
             (Contract.items (view_of (config "en" "ES")))
             (Contract.filteredItems (view_of (config "en" "ES"))) /\
   ("ES" = EmptyString ->
    Contract.filteredItems (view_of (config "en" "ES"))
    = Contract.items (view_of (config "en" "ES")))).
Proof.
  split; [reflexivity|].
  apply (ContractFacts.filteredItems_are_the_matches
           (config "en" "ES") (view_of (config "en" "ES"))).
  reflexivity.
Defined.

Lemma view_of_english_config :
  exists data shown,
    get locales "en" = Some data /\
    map Contract.code (Contract.items (view_of (config "en" EmptyString)))
    = keys locales /\
    (exists before active after,
        Contract.items (view_of (config "en" EmptyString))
        = before ++ active :: after /\
        Contract.code active = "en" /\
        Contract.isActive active = true /\
        Forall (fun item => Contract.isActive item = false /\
                            Contract.code item <> "en")
               (before ++ after)) /\
    Forall2 (fun kv item => Contract.code item = fst kv /\
                            displayed (snd kv) (Contract.label item) /\
                            Contract.item_flag item = Contract.flag (snd kv))
            (entries locales)
            (Contract.items (view_of (config "en" EmptyString))) /\
    Contract.trigger_label
      (Contract.trigger (view_of (config "en" EmptyString))) = Some shown /\
    displayed data shown /\
    Contract.trigger_flag (Contract.trigger (view_of (config "en" EmptyString)))
    = Some (Contract.flag data).
Proof.
  apply (ContractFacts.view_of_own_locale
           (config "en" EmptyString) (view_of (config "en" EmptyString))
           locales "en").
  - reflexivity.
  - reflexivity.
  - reflexivity.
  - simpl. auto.
Defined.

Lemma select_spanish_on_about_page :
  "es" <> Switcher.currentLocale props /\
  navigations (Switcher.onSelect props "/en/about" "es")
  = [navigated_path (keys (Switcher.locales props)) "/en/about" "es"].
Proof.
  assert (Hne : "es" <> Switcher.currentLocale props) by discriminate.
  split; [exact Hne|].
  exact (HandlerFacts.onSelect_navigates_to_rewritten_path
           props "/en/about" "es" Hne).
Defined.

Lemma push_of_spanish_starts_with_es :
  "es" <> Switcher.currentLocale props /\
  exists path rest,
    navigations (Switcher.onSelect props "/about/team" "es") = [path] /\
    Switcher.newSegments (Switcher.locales props) "/about/team" "es"
    = "es" :: rest /\
    path = ("/" ++ join "/" ("es" :: rest))%string /\
    first_segment_is "es" path /\
    Nat.ltb 0 (List.length (Switcher.newSegments (Switcher.locales props)
                                                 "/about/team" "es"))
    = true.
Proof.
  assert (Hne : "es" <> Switcher.currentLocale props) by discriminate.
  split; [exact Hne|].
  exact (HandlerFacts.pushed_path_starts_with_code
           props "/about/team" "es" Hne).
Defined.

Lemma mousedown_on_opened_dropdown :
  Switcher.state (Switcher.step opened (Switcher.mousedown [1]))
  = {| Switcher.isOpen := false; Switcher.searchValue := EmptyString |} /\
  Switcher.state (Switcher.step searching (Switcher.mousedown [0; 2; 5]))
  = Switcher.state searching.
Proof.
  split.
  - apply (proj1 (ComponentFacts.mousedown_outside_closes
                    opened [1] opened_reachable eq_refl eq_refl)).
    reflexivity.
  - apply (proj2 (ComponentFacts.mousedown_outside_closes
                    searching [0; 2; 5] searching_reachable eq_refl eq_refl)).
    reflexivity.
Defined.

Lemma toggle_of_searching_and_fresh :
  Switcher.state (Switcher.step searching Switcher.click_trigger)
  = {| Switcher.isOpen := false; Switcher.searchValue := EmptyString |} /\
  Switcher.state (Switcher.step fresh Switcher.click_trigger)
  = {| Switcher.isOpen := true;
       Switcher.searchValue := Switcher.searchValue (Switcher.state fresh) |}.
Proof.
  split.
  - exact (proj2 (proj1 (ComponentFacts.onToggle_flips searching eq_refl)
                        eq_refl)).
  - exact (proj2 (proj2 (ComponentFacts.onToggle_flips fresh eq_refl)
                        eq_refl)).
Defined.

Lemma helpers_on_the_server :
  Browser.hasTouch server [] = (Normal Browser.no_touch, []) /\
  Browser.hasMobile server [] = (Normal Browser.no_mobile, []) /\
  Browser.isUserAgent server "chrome" [] = (Normal false, []) /\
  Browser.getUserAgent server [] = (Normal Browser.Unknown, []).
Proof.
  destruct (BrowserFacts.helpers_default_without_globals server [])
    as (Htouch & Hmobile & Hagent & Hname).
  split; [|split; [|split]].
  - apply Htouch. left. reflexivity.
  - apply Hmobile. left. reflexivity.
  - apply Hagent. reflexivity.
  - apply Hname. reflexivity.
Defined.

Lemma listener_of_opened :
  List.length (Switcher.listeners opened) = 1 /\
  (Switcher.isOpen (Switcher.state opened) = false ->
   Switcher.listeners opened = []) /\
  Switcher.listeners (Switcher.step opened Switcher.leave) = [].
Proof.
  exact (ComponentFacts.listener_subscribed_iff_open opened opened_reachable).
Defined.

Lemma select_english_while_searching :
  let c' := Switcher.step searching (Switcher.click_item "en") in
  navigations (Switcher.onSelect props "/en/about" "en") = [] /\
  Switcher.state c'
  = {| Switcher.isOpen := false; Switcher.searchValue := EmptyString |} /\
  Switcher.pushed c' = Switcher.pushed searching /\
  Switcher.pathname c' = Switcher.pathname searching.
Proof.
  exact (ComponentFacts.select_current_does_not_navigate searching eq_refl).
Defined.

End Instances.

(* ================================================================== *)
(** ** More on the environment helpers                                 *)
(* ================================================================== *)

Module BrowserMore.
Import Js JsFacts Browser BrowserInfo Spec.

Lemma hasTouch_cases env k :
  hasTouch env k =
  match window env, document env, navigator env with
  | Some _, Some doc, Some nav =>
      (Normal (if has_property "ontouchstart" (documentElement doc) ||
                  has_property "onpointerdown" (documentElement doc) ||
                  (0 <? maxTouchPoints nav)%Z
               then has_touch else no_touch), k)
  | Some _, Some _, None => (Normal no_touch, k ++ [touch_warning])
  | _, _, _ => (Normal no_touch, k)
  end.
Proof.
  unfold hasTouch.
  destruct (window env), (document env), (navigator env); reflexivity.
Qed.

Lemma hasMobile_cases env k :
  hasMobile env k =
  match window env, navigator env with
  | Some win, Some nav =>
      (Normal
         (if mobileRegex_test (userAgent nav) ||
             tabletRegex_test (userAgent nav) ||
             ((if (innerWidth win =? 0)%Z then false
               else (innerWidth win <=? 768)%Z) &&
              match fst (hasTouch env k) with
              | Normal has_touch => true
              | _ => false
              end)
          then has_mobile else no_mobile), k)
  | _, _ => (Normal no_mobile, k)
  end.
Proof.
  unfold hasMobile.
  destruct (window env) as [win|] eqn:Hw; [|reflexivity].
  destruct (navigator env) as [nav|] eqn:Hn; [|reflexivity].
  cbn [undefined orb]. unfold try_catch, andThen, global, ret.
  rewrite hasTouch_cases, Hw, Hn.
  destruct (document env); cbn [fst];
    repeat match goal with |- context [if ?b then _ else _] =>
                             destruct b; cbn [orb andb fst] end;
    reflexivity.
Qed.

(** The tablet pattern finds nothing the mobile pattern misses, except the
    word Tablet. *)
Lemma starts_with_includes s t : starts_with s t = true -> includes s t = true.
Proof.
  intros H. destruct s; simpl; now rewrite H.
Qed.

Lemma android_not_mobile_names_android s :
  android_not_mobile s = true -> test_word s "Android" = true.
Proof.
  unfold test_word. change (fold_case "Android") with "android".
  induction s as [|c s IH]; cbn [android_not_mobile fold_case includes].
  - unfold android_here. cbn. discriminate.
  - intros H. apply orb_true_iff in H as [H|H].
    + unfold android_here in H. apply andb_prop in H as [H _].
      cbn [fold_case] in H. now rewrite H.
    + rewrite (IH H). apply orb_true_r.
Qed.

Lemma tablet_adds_only_Tablet s :
  mobileRegex_test s || tabletRegex_test s =
  mobileRegex_test s || test_word s "Tablet".
Proof.
  unfold tabletRegex_test.
  destruct (test_word s "Tablet"); [now rewrite !orb_true_r|].
  rewrite orb_false_r.
  destruct (mobileRegex_test s) eqn:Hm; [reflexivity|].
  cbn [orb]. unfold mobileRegex_test in Hm. cbn [existsb] in Hm.
  destruct (test_word s "iPad") eqn:Hi.
  - rewrite ?orb_true_r in Hm. cbn [orb] in Hm.
    destruct (test_word s "Android"), (test_word s "webOS"),
      (test_word s "iPhone"); discriminate.
  - cbn [orb]. destruct (android_not_mobile s) eqn:Ha; [|reflexivity].
    apply android_not_mobile_names_android in Ha. now rewrite Ha in Hm.
Qed.

Section WithHost.
Context {host : StringHost}.

Lemma isUserAgent_cases env agent k :
  isUserAgent env agent k =
  (Normal match navigator env with
          | Some nav =>
              truthy agent &&
              includes (toLowerCase (userAgent nav)) (toLowerCase agent)
          | None => false
          end, k).
Proof.
  unfold isUserAgent. destruct (navigator env); [|reflexivity].
  cbn [undefined]. now destruct (truthy agent).
Qed.

Lemma getUserAgent_cases env k :
  getUserAgent env k =
  (Normal match navigator env with
          | Some nav => first_named (toLowerCase (userAgent nav))
          | None => Unknown
          end, k).
Proof.
  unfold getUserAgent. destruct (navigator env) as [nav|]; [|reflexivity].
  cbn [undefined]. unfold try_catch, andThen, global, ret, first_named.
  cbn [browser_table find existsb fst snd].
  set (ua := toLowerCase (userAgent nav)).
  destruct (includes ua "brave"), (includes ua "samsung"),
    (includes ua "opr"), (includes ua "opera"), (includes ua "edg"),
    (includes ua "chrome"), (includes ua "safari"), (includes ua "firefox");
    reflexivity.
Qed.

(** X1. No helper throws, whatever the environment: [hasTouch], [hasMobile],
    [isUserAgent], [getUserAgent], [getBrowserInfo] and [isSSR] all return a
    value. *)
Theorem helpers_never_throw env agent console :
  (exists v k, hasTouch env console = (Normal v, k)) /\
  (exists v k, hasMobile env console = (Normal v, k)) /\
  (exists v k, isUserAgent env agent console = (Normal v, k)) /\
  (exists v k, getUserAgent env console = (Normal v, k)) /\
  (exists v k, getBrowserInfo env console = (Normal v, k)) /\
  (exists v k, isSSR env console = (Normal v, k)).
Proof.
  split; [|split; [|split; [|split; [|split]]]].
  - rewrite hasTouch_cases.
    destruct (window env), (document env), (navigator env); eauto.
  - rewrite hasMobile_cases. destruct (window env), (navigator env); eauto.
  - rewrite isUserAgent_cases. eauto.
  - rewrite getUserAgent_cases. eauto.
  - unfold getBrowserInfo, try_catch.
    match goal with |- context [match ?b console with _ => _ end] =>
                      destruct (b console) as [[v|e] k'] end; eauto.
    unfold andThen, console_warn, ret. eauto.
  - unfold isSSR, ret. eauto.
Qed.

(** X2. [hasTouch] writes to the console in one situation only: [window] and
    [document] are defined and [navigator] is not; it then answers
    'no-touch' and logs the reference error.  [hasMobile], [isUserAgent] and
    [getUserAgent] never write to the console. *)
Theorem only_hasTouch_warns env agent console :
  (exists touch,
      hasTouch env console =
      (Normal touch,
       if negb (undefined (window env)) && negb (undefined (document env)) &&
          undefined (navigator env)
       then console ++ [touch_warning] else console) /\
      (undefined (navigator env) = true -> touch = no_touch)) /\
  snd (hasMobile env console) = console /\
  snd (isUserAgent env agent console) = console /\
  snd (getUserAgent env console) = console.
Proof.
  split; [|split; [|split]].
  - rewrite hasTouch_cases.
    destruct (window env), (document env), (navigator env); cbn;
      eexists; split; try reflexivity; try discriminate; reflexivity.
  - rewrite hasMobile_cases. now destruct (window env), (navigator env).
  - now rewrite isUserAgent_cases.
  - now rewrite getUserAgent_cases.
Qed.

(** X3. [getBrowserInfo] never takes its [catch]: it returns the answers of
    the three detectors for the same environment, the user agent and the
    platform of [navigator] (the empty string without one), and the size of
    [window] ([null] without one); its only console output is that of
    [hasTouch]. *)
Theorem getBrowserInfo_assembles env console :
  exists info,
    getBrowserInfo env console = (Normal info, snd (hasTouch env console)) /\
    getUserAgent env console = (Normal (name info), console) /\
    fst (hasTouch env console) = Normal (info_hasTouch info) /\
    fst (hasMobile env (snd (hasTouch env console)))
    = Normal (isMobile info) /\
    info_userAgent info =
      match navigator env with
      | Some nav => userAgent nav
      | None => EmptyString
      end /\
    info_platform info =
      match navigator env with
      | Some nav => platform nav
      | None => EmptyString
      end /\
    viewport info =
      match window env with
      | Some win => Some {| width := innerWidth win;
                            height := innerHeight win |}
      | None => None
      end.
Proof.
  unfold getBrowserInfo, try_catch, andThen.
  rewrite getUserAgent_cases.
  destruct (hasTouch env console) as [touch k] eqn:Ht.
  assert (Htouch : exists t, touch = Normal t).
  { rewrite hasTouch_cases in Ht.
    destruct (window env), (document env), (navigator env);
      injection Ht as <- _; eauto. }
  destruct Htouch as [t ->]. cbn [snd fst].
  rewrite hasMobile_cases.
  destruct (window env) as [win|], (navigator env) as [nav|];
    cbn [undefined negb global ret andThen];
    eexists; repeat split; reflexivity.
Qed.

(** X4. [getUserAgent] answers with the first browser, in the order Brave,
    Samsung, Opera, Edge, Chrome, Safari, Firefox, one of whose words occurs
    in the lower-cased user agent, and with 'Unknown' when none of the eight
    words occurs; the test for the absence of 'chrome' in the Safari line
    decides nothing. *)
Theorem getUserAgent_first_named env nav console :
  navigator env = Some nav ->
  getUserAgent env console =
    (Normal (first_named (toLowerCase (userAgent nav))), console) /\
  (first_named (toLowerCase (userAgent nav)) = Unknown <->
   forall word, In word browser_words ->
                includes (toLowerCase (userAgent nav)) word = false).
Proof.
  intros Hn. rewrite getUserAgent_cases, Hn. split; [reflexivity|].
  unfold first_named, browser_words.
  cbn [browser_table find existsb fst snd].
  set (ua := toLowerCase (userAgent nav)). split.
  - intros H word Hin.
    destruct (includes ua "brave") eqn:E1; [discriminate|].
    destruct (includes ua "samsung") eqn:E2; [discriminate|].
    destruct (includes ua "opr") eqn:E3; [discriminate|].
    destruct (includes ua "opera") eqn:E4; [discriminate|].
    destruct (includes ua "edg") eqn:E5; [discriminate|].
    destruct (includes ua "chrome") eqn:E6; [discriminate|].
    destruct (includes ua "safari") eqn:E7; [discriminate|].
    destruct (includes ua "firefox") eqn:E8; [discriminate|].
    cbn [In] in Hin.
    repeat (destruct Hin as [<-|Hin]; [assumption|]). contradiction.
  - intros H.
    rewrite !H by (cbn [In]; tauto). reflexivity.
Qed.

(** X5. [isUserAgent] answers true exactly when [navigator] is defined, the
    argument is not empty, and the argument is a case-insensitive substring
    of the user agent. *)
Theorem isUserAgent_iff env agent console :
  isUserAgent env agent console = (Normal true, console) <->
  exists nav,
    navigator env = Some nav /\ agent <> EmptyString /\
    ContainsIgnoringCase (userAgent nav) agent.
Proof.
  rewrite isUserAgent_cases. unfold ContainsIgnoringCase.
  destruct (navigator env) as [nav|].
  - split.
    + intros E. injection E as E. apply andb_prop in E as [Ht Hi].
      exists nav. repeat split.
      * now apply truthy_true.
      * now apply includes_iff.
    + intros (nav' & E & Hne & Hc). injection E as <-.
      apply truthy_true in Hne. apply includes_iff in Hc.
      now rewrite Hne, Hc.
  - split; [discriminate|]. intros (nav & E & _). discriminate.
Qed.

End WithHost.

(** X6. With a window and a navigator, [hasMobile] answers 'has-mobile'
    exactly when the user agent matches the mobile pattern, or names a
    Tablet, or the viewport is at most 768 wide (and not 0) on a touch
    device; the alternatives iPad and Android-without-Mobile of the tablet
    pattern decide nothing. *)
Theorem hasMobile_iff env win nav console :
  window env = Some win -> navigator env = Some nav ->
  hasMobile env console = (Normal has_mobile, console) <->
  mobileRegex_test (userAgent nav) = true \/
  test_word (userAgent nav) "Tablet" = true \/
  (innerWidth win <> 0%Z /\ (innerWidth win <= 768)%Z /\
   fst (hasTouch env console) = Normal has_touch).
Proof.
  intros Hw Hn. rewrite hasMobile_cases, Hw, Hn.
  rewrite tablet_adds_only_Tablet.
  destruct (mobileRegex_test (userAgent nav)); [cbn; tauto|].
  destruct (test_word (userAgent nav) "Tablet"); [cbn; tauto|].
  cbn [orb].
  destruct (Z.eqb_spec (innerWidth win) 0) as [E0|N0].
  - cbn [andb]. split; [discriminate|].
    intros [H|[H|(H & _)]]; [discriminate | discriminate | contradiction].
  - destruct (Z.leb_spec (innerWidth win) 768) as [Hle|Hgt].
    + cbn [andb]. destruct (fst (hasTouch env console)) as [[|]|e].
      * split; [intros _; right; right; auto | reflexivity].
      * split; [discriminate|].
        intros [H|[H|(_ & _ & H)]]; discriminate.
      * split; [discriminate|].
        intros [H|[H|(_ & _ & H)]]; discriminate.
    + cbn [andb]. split; [discriminate|].
      intros [H|[H|(_ & H & _)]]; [discriminate | discriminate | lia].
Qed.

End BrowserMore.

(* ================================================================== *)
(** ** bemClassnames                                                   *)
(* ================================================================== *)

Module ClassnameFacts.
Import Js JsFacts Classname.

Lemma join_empty (sep : string) (l : list string) :
  Forall (fun s => truthy s = true) l ->
  join sep l = EmptyString -> l = [].
Proof.
  intros Hall. destruct l as [|x l]; [reflexivity|].
  inversion Hall as [|? ? Hx _]; subst.
  destruct x as [|c x]; [discriminate|].
  destruct l; discriminate.
Qed.

Lemma filter_fixed {A} (f : A -> bool) (l : list A) :
  filter f (filter f l) = filter f l.
Proof.
  induction l as [|x l IH]; simpl; [reflexivity|].
  destruct (f x) eqn:E; simpl; [rewrite E; f_equal|]; assumption.
Qed.

Lemma filter_map_swap {A B} (f : A -> B) (p : B -> bool) (q : A -> bool)
      (l : list A) :
  (forall x, p (f x) = q x) ->
  filter p (map f l) = map f (filter q l).
Proof.
  intros H. induction l as [|x l IH]; simpl; [reflexivity|].
  rewrite H. destruct (q x); simpl; now rewrite IH.
Qed.

Section WithTrim.
Context {host : TrimHost}.

Lemma usable_trim c : usable c = truthy (trim c).
Proof.
  unfold usable. destruct c; [now rewrite trim_empty | reflexivity].
Qed.

Lemma prefixed_truthy element c :
  usable c = true -> truthy (prefixed element c) = true.
Proof.
  rewrite usable_trim. unfold prefixed, element_given.
  destruct element as [e|]; cbn [default]; [|trivial].
  destruct (truthy (trim e)) eqn:He; [|trivial].
  intros _. destruct (trim e); [discriminate | reflexivity].
Qed.

Lemma parts_truthy element classname :
  Forall (fun s => truthy s = true) (parts element classname).
Proof.
  unfold parts. cbn [app].
  assert (Hpre : Forall (fun s => truthy s = true)
                        (map (prefixed element)
                             (filter usable (default [] classname)))).
  { apply Forall_forall. intros s Hin.
    apply in_map_iff in Hin as (c & <- & Hin).
    apply filter_In in Hin as [_ Hc]. now apply prefixed_truthy. }
  assert (Hel : Forall (fun s => truthy s = true)
                       (if element_given element
                        then [trim (default EmptyString element)] else [])).
  { unfold element_given. destruct element as [e|]; [|constructor].
    cbn [default]. destruct (truthy (trim e)) eqn:He; repeat constructor.
    assumption. }
  destruct (classname_given classname); [|assumption].
  apply Forall_app. now split.
Qed.

Lemma classname_not_given classname :
  classname_given classname = false -> default [] classname = [].
Proof.
  destruct classname as [[|c l]|]; simpl; congruence.
Qed.

(** What [bemClassnames] joins, whichever way it takes. *)
Lemma bemClassnames_joins element classname :
  bemClassnames element classname =
  join " " ((if element_given element
             then [trim (default EmptyString element)] else []) ++
            map (prefixed element) (filter usable (default [] classname))).
Proof.
  unfold bemClassnames, parts. cbn [app].
  destruct (classname_given classname) eqn:Hc.
  - now rewrite andb_false_r.
  - rewrite (classname_not_given _ Hc). cbn [filter map].
    rewrite app_nil_r. now destruct (element_given element).
Qed.

(** X7. [bemClassnames] returns the empty string exactly when there is no
    element (absent, or blank once trimmed) and no usable modifier (absent
    array, or only entries that are blank once trimmed). *)
Theorem bemClassnames_empty_iff element classname :
  bemClassnames element classname = EmptyString <->
  element_given element = false /\
  filter usable (default [] classname) = [].
Proof.
  rewrite bemClassnames_joins. split.
  - intros E. apply join_empty in E.
    + apply app_eq_nil in E as [E1 E2]. split.
      * destruct (element_given element); [discriminate | reflexivity].
      * destruct (filter usable (default [] classname)); [reflexivity|].
        discriminate.
    + pose proof (parts_truthy element
                    (Some (EmptyString :: default [] classname))) as H.
      unfold parts in H. cbn [classname_given List.length Nat.eqb negb
                              default filter app] in H.
      change (usable EmptyString) with false in H. exact H.
  - intros [-> ->]. reflexivity.
Qed.

(** X8. Blank modifiers do not count: the result is the one for the array
    without its unusable entries, and an array with nothing usable gives
    what an absent array gives. *)
Theorem bemClassnames_ignores_blanks element classname :
  bemClassnames element classname =
  bemClassnames element (Some (filter usable (default [] classname))) /\
  (filter usable (default [] classname) = [] ->
   bemClassnames element classname = bemClassnames element None).
Proof.
  rewrite !bemClassnames_joins. cbn [default]. split.
  - now rewrite filter_fixed.
  - now intros ->.
Qed.

(** X9. White space around the element and around the modifiers does not
    count: the result is the one for the trimmed element and the trimmed
    modifiers. *)
Theorem bemClassnames_of_trimmed element classname :
  bemClassnames element classname =
  bemClassnames (option_map trim element) (option_map (map trim) classname).
Proof.
  rewrite !bemClassnames_joins.
  assert (Hg : element_given (option_map trim element)
               = element_given element).
  { destruct element as [e|]; [|reflexivity].
    cbn. now rewrite trim_idempotent. }
  assert (He : trim (default EmptyString (option_map trim element))
               = trim (default EmptyString element)).
  { destruct element as [e|]; [|reflexivity].
    cbn. now rewrite trim_idempotent. }
  rewrite Hg, He. f_equal.
  assert (Hl : default [] (option_map (map trim) classname)
               = map trim (default [] classname)).
  { now destruct classname. }
  rewrite Hl.
  rewrite (filter_map_swap trim usable usable).
  - rewrite map_map. f_equal. apply map_ext. intros c.
    unfold prefixed. now rewrite Hg, He, trim_idempotent.
  - intros c. now rewrite !usable_trim, trim_idempotent.
Qed.

End WithTrim.

(** The example of the documentation, and a call without an element. *)
Example bem_button :
  bemClassnames (host := AsciiTrim.host)
                (Some "button") (Some ["primary"; "large"])
  = "button button-primary button-large".
Proof. reflexivity. Qed.

Example bem_without_element :
  bemClassnames (host := AsciiTrim.host)
                None (Some [" wide "; "   "; "tall"])
  = "wide tall".
Proof. reflexivity. Qed.

End ClassnameFacts.

(* ================================================================== *)
(** ** The path rewrite, applied again                                 *)
(* ================================================================== *)

Module PathFacts.
Import Js JsFacts Switcher Spec Words.

Lemma split_slash_free (s : string) :
  Forall (fun w => slash_free w = true) (split "/" s).
Proof.
  induction s as [|c s IH]; cbn [split].
  - now repeat constructor.
  - destruct (Ascii.eqb c "/") eqn:E.
    + now constructor.
    + destruct (split "/" s) as [|w ws].
      * repeat constructor. cbn [slash_free]. now rewrite E.
      * inversion IH; subst. constructor; [|assumption].
        cbn [slash_free]. now rewrite E.
Qed.

(** The segments the switcher reads are clean. *)
Lemma segments_of_clean (pathname : string) :
  Forall (fun w => clean_segment w = true) (segments_of pathname).
Proof.
  unfold segments_of, clean_segment. apply Forall_forall. intros w Hin.
  apply filter_In in Hin as [Hin Ht]. rewrite Ht.
  pose proof (split_slash_free pathname) as H.
  rewrite Forall_forall in H. now apply H.
Qed.

Lemma split_one (w : string) : slash_free w = true -> split "/" w = [w].
Proof.
  induction w as [|c w IH]; [reflexivity|].
  cbn [slash_free split]. intros H. apply andb_prop in H as [Hc Hw].
  apply negb_true_iff in Hc. now rewrite Hc, (IH Hw).
Qed.

Lemma split_first (w rest : string) :
  slash_free w = true ->
  split "/" (w ++ String "/" rest) = w :: split "/" rest.
Proof.
  induction w as [|c w IH]; [reflexivity|].
  cbn [slash_free]. intros H. apply andb_prop in H as [Hc Hw].
  apply negb_true_iff in Hc.
  change (String c w ++ String "/" rest)%string
    with (String c (w ++ String "/" rest)).
  cbn [split]. now rewrite Hc, (IH Hw).
Qed.

(** Splitting what was joined gives the segments back. *)
Lemma split_join (segments : list string) :
  segments <> [] ->
  Forall (fun w => slash_free w = true) segments ->
  split "/" (join "/" segments) = segments.
Proof.
  induction segments as [|w ws IH]; [congruence|].
  intros _ Hall. inversion Hall as [|? ? Hw Hws]; subst.
  destruct ws as [|w' ws].
  - now apply split_one.
  - change (join "/" (w :: w' :: ws))
      with (w ++ String "/" (join "/" (w' :: ws)))%string.
    rewrite (split_first _ _ Hw). f_equal. apply IH; [discriminate|assumption].
Qed.

Lemma filter_all {A} (f : A -> bool) (l : list A) :
  Forall (fun x => f x = true) l -> filter f l = l.
Proof.
  induction 1 as [|x l Hx _ IH]; simpl; [reflexivity|].
  now rewrite Hx, IH.
Qed.

Lemma segments_of_path (segments : list string) :
  Forall (fun w => clean_segment w = true) segments ->
  segments_of ("/" ++ join "/" segments) = segments.
Proof.
  intros Hall. unfold segments_of.
  change ("/" ++ join "/" segments)%string
    with (String "/" (join "/" segments)).
  cbn [split Ascii.eqb Bool.eqb]. cbn [filter truthy].
  destruct segments as [|w ws]; [reflexivity|].
  rewrite split_join.
  - apply filter_all. eapply Forall_impl; [|exact Hall].
    intros s H. now apply andb_prop in H as [H _].
  - discriminate.
  - eapply Forall_impl; [|exact Hall].
    intros s H. now apply andb_prop in H as [_ H].
Qed.

Lemma newSegments_kept locales pathname code :
  newSegments locales pathname code = code :: kept locales pathname.
Proof.
  unfold newSegments, kept, segments_of.
  destruct (filter truthy (split "/" pathname)) as [|first rest];
    [reflexivity|].
  cbn [List.length Nat.ltb Nat.leb andb first_is_locale nth_error].
  now destruct (array_includes (keys locales) first).
Qed.

Lemma kept_clean locales pathname :
  Forall (fun w => clean_segment w = true) (kept locales pathname).
Proof.
  pose proof (segments_of_clean pathname) as H. unfold kept.
  destruct (segments_of pathname) as [|first rest]; [constructor|].
  destruct (array_includes (keys locales) first); [|assumption].
  now inversion H.
Qed.

Lemma newPath_kept locales pathname code :
  newPath locales pathname code =
  ("/" ++ join "/" (code :: kept locales pathname))%string.
Proof.
  unfold newPath. now rewrite newSegments_kept.
Qed.

Lemma segments_of_newPath locales pathname code :
  clean_segment code = true ->
  segments_of (newPath locales pathname code)
  = newSegments locales pathname code.
Proof.
  intros Hc. rewrite newPath_kept, newSegments_kept.
  apply segments_of_path. constructor; [assumption | apply kept_clean].
Qed.

Lemma newPath_again locales pathname code code' :
  clean_segment code = true -> In code (keys locales) ->
  newPath locales (newPath locales pathname code) code'
  = newPath locales pathname code'.
Proof.
  intros Hc Hin. rewrite !newPath_kept. do 3 f_equal.
  unfold kept at 1. rewrite <- newPath_kept.
  rewrite (segments_of_newPath _ _ _ Hc), newSegments_kept.
  apply array_includes_iff in Hin. now rewrite Hin.
Qed.


(** X11. Switching twice is switching once to the last language: rewriting
    the pushed path for a second code gives the path of the second code,
    when the first code is a clean segment and a key of the locales
    record. *)
Theorem newPath_twice locales pathname code code' :
  clean_segment code = true -> In code (keys locales) ->
  newPath locales (newPath locales pathname code) code'
  = newPath locales pathname code'.
Proof.
  intros Hc Hin. rewrite !newPath_kept. do 3 f_equal.
  unfold kept at 1. rewrite <- newPath_kept.
  rewrite (segments_of_newPath _ _ _ Hc), newSegments_kept.
  apply array_includes_iff in Hin. now rewrite Hin.
Qed.

(** X12. Switching away and back returns to the page: when the pathname
    starts with a locale of the record, pushing another clean locale and then
    the first one again gives the pathname in its normal form, '/' followed
    by its non-empty segments joined with '/'. *)
Theorem newPath_there_and_back locales pathname first rest code :
  segments_of pathname = first :: rest ->
  In first (keys locales) ->
  clean_segment code = true -> In code (keys locales) ->
  newPath locales (newPath locales pathname code) first
  = ("/" ++ join "/" (segments_of pathname))%string.
Proof.
  intros Hs Hfirst Hc Hin.
  rewrite (newPath_again _ _ _ _ Hc Hin), newPath_kept.
  unfold kept. rewrite Hs.
  apply array_includes_iff in Hfirst. now rewrite Hfirst.
Qed.

End PathFacts.

(* ================================================================== *)
(** ** More on buildLanguageView and on what is rendered               *)
(* ================================================================== *)

Module ViewFacts.
Import Js JsFacts Contract Spec Words.

Section WithHost.
Context {host : StringHost}.

Lemma verdict_cases config :
  verdict config =
  match Contract.locales config with
  | None => Some (Error locales_required)
  | Some locales =>
      match keys locales with
      | [] => Some (Error locales_required)
      | _ :: _ =>
          match Contract.currentLocale config with
          | None => Some (Error current_required)
          | Some current =>
              if truthy current
              then match lookup locales current with
                   | Some _ => None
                   | None => Some (Error (not_found current))
                   end
              else Some (Error current_required)
          end
      end
  end.
Proof.
  unfold verdict, buildLanguageView.
  destruct (Contract.locales config) as [locales|]; [|reflexivity].
  destruct (keys locales); [reflexivity|]. cbn [List.length Nat.eqb].
  destruct (Contract.currentLocale config) as [current|]; [|reflexivity].
  destruct (truthy current); [|reflexivity]. cbn [negb].
  now destruct (lookup locales current).
Qed.

Lemma verdict_throw config e :
  verdict config = Some e <-> buildLanguageView config = Throw e.
Proof.
  unfold verdict. destruct (buildLanguageView config); split; congruence.
Qed.

Lemma verdict_normal config :
  verdict config = None <-> exists view, buildLanguageView config = Normal view.
Proof.
  unfold verdict. destruct (buildLanguageView config); split;
    try congruence; eauto.
  intros [view E]. discriminate.
Qed.

(** X13. Which error is thrown: a missing or empty record is reported first,
    whatever the current locale; then a missing or empty current locale;
    then, by name, a current locale that is neither a key of the record nor
    a member the record inherits from [Object.prototype]. *)
Theorem buildLanguageView_error_order config :
  (locales_missing_or_empty config ->
   buildLanguageView config = Throw (Error locales_required)) /\
  (~ locales_missing_or_empty config ->
   currentLocale_missing_or_empty config ->
   buildLanguageView config = Throw (Error current_required)) /\
  (~ locales_missing_or_empty config ->
   ~ currentLocale_missing_or_empty config ->
   currentLocale_not_found config ->
   exists current,
     Contract.currentLocale config = Some current /\
     buildLanguageView config = Throw (Error (not_found current))).
Proof.
  unfold locales_missing_or_empty, currentLocale_missing_or_empty,
    currentLocale_not_found.
  pose proof (verdict_cases config) as Hv.
  destruct (Contract.locales config) as [locales|].
  2: { apply verdict_throw in Hv. repeat split; tauto. }
  destruct (keys locales) as [|k ks] eqn:Hk.
  1: { apply verdict_throw in Hv. repeat split; tauto. }
  destruct (Contract.currentLocale config) as [current|].
  2: { apply verdict_throw in Hv.
       repeat split; try tauto; intros H; discriminate H. }
  destruct (truthy current) eqn:Ht.
  2: { apply verdict_throw in Hv. apply truthy_false in Ht.
       repeat split; try tauto; intros H; discriminate H. }
  apply truthy_true in Ht.
  split; [intros H; discriminate H|]. split; [tauto|].
  intros _ _ Hn. exists current. split; [reflexivity|].
  rewrite <- Hk in Hn. apply lookup_none in Hn. rewrite Hn in Hv.
  now apply verdict_throw.
Qed.

(** The option [triggerLabel] of the configuration is not read: two
    configurations that differ in it alone have the same outcome. *)
Lemma triggerLabel_is_ignored locales current search open label label'
        placeholder :
  buildLanguageView
    {| Contract.locales := locales; Contract.currentLocale := current;
       searchValue := search; isOpen := open; triggerLabel := label;
       searchPlaceholder := placeholder |}
  = buildLanguageView
      {| Contract.locales := locales; Contract.currentLocale := current;
         searchValue := search; isOpen := open; triggerLabel := label';
         searchPlaceholder := placeholder |}.
Proof. reflexivity. Qed.

(** X14. The search value, the open flag and the placeholder decide neither
    whether a configuration is accepted nor, when it is, the items and the
    label and flag of the trigger: these depend on the record and the
    current locale alone. *)
Theorem search_leaves_items_alone config config' :
  Contract.locales config = Contract.locales config' ->
  Contract.currentLocale config = Contract.currentLocale config' ->
  verdict config = verdict config' /\
  forall view view',
    buildLanguageView config = Normal view ->
    buildLanguageView config' = Normal view' ->
    items view = items view' /\
    trigger_label (trigger view) = trigger_label (trigger view') /\
    trigger_flag (trigger view) = trigger_flag (trigger view').
Proof.
  intros Hl Hc. split.
  - now rewrite !verdict_cases, Hl, Hc.
  - intros view view' Hv Hv'.
    apply ContractFacts.buildLanguageView_accepted in Hv
      as (l & c & d & El & _ & Ec & _ & Eg & ->).
    apply ContractFacts.buildLanguageView_accepted in Hv'
      as (l' & c' & d' & El' & _ & Ec' & _ & Eg' & ->).
    assert (l' = l) by congruence. assert (c' = c) by congruence. subst.
    assert (d' = d) by congruence. subst. now cbn.
Qed.

(** The codes of the items are the keys of the record. *)
Lemma items_codes config view locales :
  buildLanguageView config = Normal view ->
  Contract.locales config = Some locales ->
  map code (items view) = keys locales.
Proof.
  intros Hv Hl.
  apply ContractFacts.buildLanguageView_accepted in Hv
    as (l & c & d & El & _ & _ & _ & _ & ->).
  assert (l = locales) by congruence. subst. cbn [items].
  unfold keys. rewrite map_map. apply map_ext. intros [k v]. reflexivity.
Qed.

Lemma filteredItems_filter config view :
  buildLanguageView config = Normal view ->
  exists f, filteredItems view = filter f (items view).
Proof.
  intros Hv.
  apply ContractFacts.buildLanguageView_accepted in Hv
    as (l & c & d & _ & _ & _ & _ & _ & ->).
  cbn [items filteredItems].
  destruct (truthy _).
  - eauto.
  - exists (fun _ => true). symmetry. apply PathFacts.filter_all.
    apply Forall_forall. reflexivity.
Qed.

Lemma NoDup_map_filter {A B} (g : A -> B) (f : A -> bool) (l : list A) :
  NoDup (map g l) -> NoDup (map g (filter f l)).
Proof.
  induction l as [|x l IH]; simpl; [trivial|].
  intros H. inversion H as [|? ? Hx Hl]; subst.
  destruct (f x); simpl; [|auto].
  constructor; [|auto].
  intros Hin. apply Hx. apply in_map_iff in Hin as (y & E & Hy).
  apply filter_In in Hy as [Hy _]. apply in_map_iff. eauto.
Qed.

Lemma options_of_render view handlers :
  map Render.key_of
      (Render.options (Render.renderLanguageSwitcher view handlers))
  = map (fun item => Some (code item)) (filteredItems view).
Proof.
  unfold Render.renderLanguageSwitcher.
  cbn [Render.options flat_map app]. rewrite !app_nil_r.
  induction (filteredItems view) as [|item l IH]; [reflexivity|].
  cbn [map flat_map Render.options app Render.key_of]. now rewrite IH.
Qed.

(** X15. The keys React is given for the rendered items are pairwise
    distinct, and each is a key of the locales record: the traversal renders
    one [Item] per filtered item, keyed by its code, in order. *)
Theorem rendered_keys_are_distinct config view handlers :
  buildLanguageView config = Normal view ->
  exists locales codes,
    Contract.locales config = Some locales /\
    map Render.key_of
        (Render.options (Render.renderLanguageSwitcher view handlers))
    = map Some codes /\
    codes = map code (filteredItems view) /\
    NoDup codes /\
    incl codes (keys locales).
Proof.
  intros Hv.
  destruct (ContractFacts.buildLanguageView_accepted _ _ Hv)
    as (l & c & d & El & _ & _ & _ & _ & _).
  destruct (filteredItems_filter _ _ Hv) as [f Ef].
  pose proof (items_codes _ _ _ Hv El) as Ek.
  exists l, (map code (filteredItems view)).
  split; [assumption|]. split; [|split; [reflexivity|split]].
  - rewrite options_of_render. now rewrite map_map.
  - rewrite Ef. apply NoDup_map_filter. rewrite Ek. apply keys_NoDup.
  - rewrite Ef, <- Ek. intros k Hin.
    apply in_map_iff in Hin as (item & <- & Hin).
    apply filter_In in Hin as [Hin _]. now apply in_map.
Qed.

End WithHost.

End ViewFacts.

(* ================================================================== *)
(** ** More on the mounted switcher                                    *)
(* ================================================================== *)

Module SwitcherMore.
Import Js JsFacts Switcher Spec Words.

Section WithDocument.
Context {node : Type} {dom : Dom node} {host : StringHost}.

Implicit Types c : Component node.

(** *** Calls and what they change *)

Lemma apply_calls_pushed (calls : list Call) s hist :
  snd (apply_calls calls (s, hist)) = hist ++ navigations calls.
Proof.
  unfold apply_calls. revert s hist.
  induction calls as [|call calls IH]; intros s hist; cbn [fold_left].
  - cbn. now rewrite app_nil_r.
  - destruct call; cbn [apply_call navigations]; rewrite IH;
      [reflexivity | reflexivity |].
    now rewrite <- app_assoc.
Qed.

Lemma handleClickOutside_stays ref (target : node) :
  navigations (handleClickOutside ref target) = [].
Proof.
  unfold handleClickOutside. destruct ref as [current|]; [|reflexivity].
  now destruct (contains current target).
Qed.

Lemma navigations_app (a b : list Call) :
  navigations (a ++ b) = navigations a ++ navigations b.
Proof.
  induction a as [|call a IH]; [reflexivity|].
  destruct call; cbn [app navigations]; now rewrite IH.
Qed.

Lemma calls_navigations c (e : Event node) :
  navigations (calls c e) =
  match e with
  | click_item code =>
      if String.eqb code (currentLocale (props c)) then []
      else [newPath (locales (props c)) (pathname c) code]
  | _ => []
  end.
Proof.
  destruct e; cbn [calls]; try reflexivity.
  - unfold onToggle. now destruct (isOpen (state c)).
  - unfold onSelect. now destruct (String.eqb _ _).
  - induction (listeners c) as [|h l IH]; [reflexivity|].
    cbn [flat_map]. now rewrite navigations_app, handleClickOutside_stays.
Qed.

(** *** The view follows the props and the state *)

Lemma verdict_of_props p s s' :
  verdict (config p s) = verdict (config p s').
Proof. now rewrite !ViewFacts.verdict_cases. Qed.

Lemma render_accepted p path s hist c view :
  Contract.buildLanguageView (config p s) = Normal view ->
  mounted (render p path s hist c) = mounted c /\
  props (render p path s hist c) = p /\
  Switcher.view (render p path s hist c) = view /\
  container (render p path s hist c) = container c.
Proof.
  intros E. unfold render. rewrite E. now destruct (Bool.eqb _ _).
Qed.

Lemma render_rejected p path s hist c e :
  Contract.buildLanguageView (config p s) = Throw e ->
  mounted (render p path s hist c) = false.
Proof. intros E. unfold render. now rewrite E. Qed.

Lemma render_Fresh p path s hist c : Fresh (render p path s hist c).
Proof.
  unfold Fresh.
  destruct (Contract.buildLanguageView (config p s)) as [v|e] eqn:E.
  - destruct (render_accepted p path s hist c v E) as (_ & -> & -> & _).
    now rewrite ComponentFacts.render_state.
  - rewrite (render_rejected _ _ _ _ _ _ E). discriminate.
Qed.

Lemma Reachable_Fresh c : Reachable c -> Fresh c.
Proof.
  induction 1 as [p path div c Hmount | c e _ IH].
  - unfold mount, bind in Hmount.
    destruct (Contract.buildLanguageView _) as [v|err] eqn:E; [|discriminate].
    injection Hmount as <-. intros _. exact E.
  - unfold step. destruct (mounted c); cbn [negb]; [|assumption].
    destruct e; try (destruct (apply_calls _ _)); try apply render_Fresh.
    unfold Fresh, unmount. cbn. discriminate.
Qed.

Lemma step_user c (e : Event node) :
  Reachable c -> mounted c = true -> user_event e = true ->
  mounted (step c e) = true /\
  props (step c e) = props c /\
  container (step c e) = container c.
Proof.
  intros Hr Hm He.
  pose proof (Reachable_Fresh c Hr Hm) as Hv.
  assert (Hany : forall s, exists v,
               Contract.buildLanguageView (config (props c) s) = Normal v).
  { intros s. apply ViewFacts.verdict_normal.
    rewrite (verdict_of_props _ s (state c)).
    apply ViewFacts.verdict_normal. eauto. }
  unfold step. rewrite Hm. cbn [negb].
  destruct e; try discriminate;
    destruct (apply_calls _ _) as [s hist];
    destruct (Hany s) as [v E];
    destruct (render_accepted (props c) (pathname c) s hist c v E)
      as (-> & -> & _ & ->); auto.
Qed.

Lemma filteredItems_selected config view :
  Contract.buildLanguageView config = Normal view ->
  Selection (fun item =>
               ContainsIgnoringCase (Contract.label item)
                 (Contract.value (Contract.search view)) \/
               ContainsIgnoringCase (Contract.code item)
                 (Contract.value (Contract.search view)))
            (Contract.items view) (Contract.filteredItems view).
Proof.
  intros Hb.
  apply ContractFacts.buildLanguageView_accepted in Hb
    as (l & current & data & _ & _ & _ & _ & _ & ->).
  cbn [Contract.items Contract.filteredItems Contract.search Contract.value].
  destruct (truthy _) eqn:Ht.
  - apply ContractFacts.Selection_filter. intros item.
    apply ContractFacts.matchesSearch_iff.
  - apply truthy_false in Ht. rewrite Ht.
    apply ContractFacts.Selection_all. intros item. left.
    apply ContractFacts.ContainsIgnoringCase_empty.
Qed.

(** X16. The view on the screen is never stale: in every state a mounted
    component reaches, the view is the one [buildLanguageView] gives for the
    current props and state, so the trigger shows the current [isOpen] and
    the search box the current search value. *)
Theorem view_is_current c :
  Reachable c -> mounted c = true ->
  Contract.buildLanguageView (config (props c) (state c)) = Normal (view c) /\
  Contract.trigger_isOpen (Contract.trigger (view c)) = isOpen (state c) /\
  Contract.value (Contract.search (view c)) = searchValue (state c) /\
  Contract.placeholder (Contract.search (view c)) = "Search".
Proof.
  intros Hr Hm. pose proof (Reachable_Fresh c Hr Hm) as Hv.
  split; [assumption|].
  apply ContractFacts.buildLanguageView_accepted in Hv
    as (l & current & data & _ & _ & _ & _ & _ & ->).
  now cbn.
Qed.

(** X17. Nothing the user does takes the component down: after a click on
    the trigger, typing, a click on an item or a mousedown anywhere, a
    mounted component is still mounted, with the props it had. *)
Theorem user_events_keep_mounted c (e : Event node) :
  Reachable c -> mounted c = true -> user_event e = true ->
  mounted (step c e) = true /\ props (step c e) = props c.
Proof.
  intros Hr Hm He. destruct (step_user c e Hr Hm He) as (H1 & H2 & _).
  now split.
Qed.

(** X18. Typing filters the list: after the search box is given [value], the
    search value of the state is [value], the dropdown is as open as it was,
    nothing is pushed, and the view shows [value] and exactly the items whose
    label or code contains it, case-insensitively, out of the same items. *)
Theorem typing_filters c value :
  Reachable c -> mounted c = true ->
  let c' := step c (input value) in
  state c' = {| isOpen := isOpen (state c); searchValue := value |} /\
  pushed c' = pushed c /\
  Contract.value (Contract.search (view c')) = value /\
  Contract.items (view c') = Contract.items (view c) /\
  Selection (fun item =>
               ContainsIgnoringCase (Contract.label item) value \/
               ContainsIgnoringCase (Contract.code item) value)
            (Contract.items (view c')) (Contract.filteredItems (view c')).
Proof.
  intros Hr Hm c'.
  destruct (ComponentFacts.step_handled c (input value) Hm)
    as (Hs & Hp & _); try discriminate.
  cbn in Hs, Hp.
  destruct (step_user c (input value) Hr Hm eq_refl) as (Hm' & Hprops & _).
  pose proof (Reachable_Fresh _ (reach_step c (input value) Hr) Hm') as Hv'.
  pose proof (Reachable_Fresh c Hr Hm) as Hv.
  fold c' in Hs, Hp, Hm', Hprops, Hv'.
  assert (Hval : Contract.value (Contract.search (view c')) = value).
  { destruct (ContractFacts.buildLanguageView_accepted _ _ Hv')
      as (l & current & data & _ & _ & _ & _ & _ & E).
    rewrite E, Hs. reflexivity. }
  repeat split; try assumption.
  - rewrite Hprops in Hv'.
    destruct (ContractFacts.buildLanguageView_accepted _ _ Hv')
      as (l & current & data & El & _ & Ec & _ & _ & E).
    destruct (ContractFacts.buildLanguageView_accepted _ _ Hv)
      as (l0 & current0 & data0 & El0 & _ & Ec0 & _ & _ & E0).
    cbn in El, Ec, El0, Ec0.
    assert (l0 = l) by congruence. assert (current0 = current) by congruence.
    subst l0 current0. now rewrite E, E0.
  - pose proof (filteredItems_selected _ _ Hv') as Hsel.
    now rewrite Hval in Hsel.
Qed.

(** X19. While the dropdown is closed a mousedown does nothing: wherever its
    target is, the state and the router history stay as they are, and there
    is still no listener on the document. *)
Theorem mousedown_while_closed c target :
  Reachable c -> isOpen (state c) = false ->
  let c' := step c (mousedown target) in
  state c' = state c /\ pushed c' = pushed c /\ listeners c' = [].
Proof.
  intros Hr Ho c'.
  pose proof (ComponentFacts.Reachable_Settled c Hr) as HS.
  pose proof (ComponentFacts.Reachable_Settled _
                (reach_step c (mousedown target) Hr)) as HS'.
  fold c' in HS'.
  destruct (mounted c) eqn:Hm.
  - destruct (ComponentFacts.step_handled c (mousedown target) Hm)
      as (Hs & Hp & _); try discriminate.
    fold c' in Hs, Hp.
    unfold Settled in HS. rewrite Hm, Ho in HS.
    destruct HS as (_ & _ & _ & Hl).
    cbn [calls] in Hs, Hp. rewrite Hl in Hs, Hp. cbn in Hs, Hp.
    repeat split; try assumption.
    unfold Settled in HS'. rewrite Hs, Ho in HS'.
    destruct (mounted c'); [now destruct HS' as (_ & _ & _ & ->)|].
    now destruct HS' as (_ & _ & ->).
  - assert (E : c' = c) by (subst c'; unfold step; now rewrite Hm).
    rewrite E. repeat split.
    unfold Settled in HS. rewrite Hm in HS. now destruct HS as (_ & _ & ->).
Qed.

(** X20. Only the choice of another language navigates: an event adds to
    the router history exactly the paths its handler pushes, and that is
    nothing unless the event is a click on an item whose code is not the
    current locale, which pushes one path. *)
Theorem only_selection_navigates c (e : Event node) :
  mounted c = true ->
  pushed (step c e) = pushed c ++ navigations (calls c e) /\
  ((forall code, e = click_item code -> code = currentLocale (props c)) ->
   pushed (step c e) = pushed c) /\
  (forall code, e = click_item code -> code <> currentLocale (props c) ->
   pushed (step c e)
   = pushed c ++ [newPath (locales (props c)) (pathname c) code]).
Proof.
  intros Hm.
  assert (Hp : pushed (step c e) = pushed c ++ navigations (calls c e)).
  { unfold step. rewrite Hm. cbn [negb].
    destruct e; cbn [calls navigations];
      try (destruct (apply_calls _ _) as [s hist] eqn:E;
           rewrite ComponentFacts.render_pushed;
           change hist with (snd (s, hist)); rewrite <- E;
           apply apply_calls_pushed).
    - rewrite ComponentFacts.render_pushed. now rewrite app_nil_r.
    - cbn. now rewrite app_nil_r. }
  split; [assumption|]. rewrite Hp, calls_navigations. split.
  - intros Hcur. destruct e; try (now rewrite app_nil_r).
    rewrite (Hcur code eq_refl), String.eqb_refl. now rewrite app_nil_r.
  - intros code -> Hne.
    destruct (String.eqb_spec code (currentLocale (props c)));
      [contradiction | reflexivity].
Qed.

(** X21. New props with a current locale that is neither a key of the record
    nor a member the record inherits from [Object.prototype] take the
    component down cleanly: the render throws, the component is unmounted,
    the listener is removed from the document and the ref is cleared. *)
Theorem bad_props_unmount c p path :
  Reachable c -> mounted c = true ->
  ~ In (currentLocale p) (keys (locales p)) ->
  ~ In (currentLocale p) inherited_names ->
  let c' := step c (rerender p path) in
  (exists message,
      Contract.buildLanguageView (config p (state c))
      = Throw (Error message)) /\
  mounted c' = false /\ listeners c' = [] /\ containerRef c' = None.
Proof.
  intros Hr Hm Hn Hi c'.
  assert (Ht : exists message,
             Contract.buildLanguageView (config p (state c))
             = Throw (Error message)).
  { pose proof (ViewFacts.verdict_cases (config p (state c))) as Hv.
    cbn [config Contract.locales Contract.currentLocale] in Hv.
    assert (Hnone : lookup (locales p) (currentLocale p) = None)
      by (apply lookup_none; now split).
    rewrite Hnone in Hv.
    destruct (keys (locales p));
      [|destruct (truthy (currentLocale p))];
      apply ViewFacts.verdict_throw in Hv; eauto. }
  split; [assumption|]. destruct Ht as [message Ht].
  assert (Hm' : mounted c' = false).
  { subst c'. unfold step. rewrite Hm. cbn [negb].
    eapply render_rejected; eassumption. }
  pose proof (ComponentFacts.Reachable_Settled _
                (reach_step c (rerender p path) Hr)) as HS.
  fold c' in HS. unfold Settled in HS. rewrite Hm' in HS.
  destruct HS as (Href & _ & Hl). now repeat split.
Qed.

(** X22. A switcher whose current locale is a non-empty key of the record
    mounts, and starts closed with an empty search value, every item shown,
    no listener on the document and nothing pushed. *)
Theorem mount_of_valid_props p path (div : node) :
  currentLocale p <> EmptyString ->
  In (currentLocale p) (keys (locales p)) ->
  exists c,
    mount p path div = Normal c /\
    mounted c = true /\
    state c = {| isOpen := false; searchValue := EmptyString |} /\
    Contract.filteredItems (view c) = Contract.items (view c) /\
    map Contract.code (Contract.items (view c)) = keys (locales p) /\
    listeners c = [] /\ pushed c = [].
Proof.
  intros Hne Hin.
  set (s := {| isOpen := false; searchValue := EmptyString |}).
  assert (Hv : exists v, Contract.buildLanguageView (config p s) = Normal v).
  { apply ViewFacts.verdict_normal. rewrite ViewFacts.verdict_cases.
    cbn [config Contract.locales Contract.currentLocale].
    destruct (keys (locales p)) as [|k ks] eqn:Hk; [contradiction|].
    apply truthy_true in Hne. rewrite Hne.
    rewrite <- Hk in Hin.
    destruct (lookup_key _ _ Hin) as (data & _ & ->). reflexivity. }
  destruct Hv as [v Hv].
  unfold mount, bind. fold s. rewrite Hv. eexists. split; [reflexivity|].
  cbn. repeat split.
  - destruct (ContractFacts.buildLanguageView_accepted _ _ Hv)
      as (l & current & data & _ & _ & _ & _ & _ & ->).
    reflexivity.
  - apply (ViewFacts.items_codes _ _ _ Hv). reflexivity.
Qed.

(** X23. Every item on the screen leads to a configured locale: its code is
    a key of the record, a click on the active item pushes nothing, and a
    click on any other item pushes one path whose first segment is the code
    of the item. *)
Theorem rendered_items_lead_to_locales c item :
  Reachable c -> mounted c = true ->
  In item (Contract.filteredItems (view c)) ->
  In (Contract.code item) (keys (locales (props c))) /\
  (Contract.isActive item = true ->
   navigations (Render.onSelect (Render.handlers_of c) (Contract.code item))
   = []) /\
  (Contract.isActive item = false ->
   exists path,
     navigations (Render.onSelect (Render.handlers_of c) (Contract.code item))
     = [path] /\
     first_segment_is (Contract.code item) path).
Proof.
  intros Hr Hm Hin. pose proof (Reachable_Fresh c Hr Hm) as Hv.
  destruct (ViewFacts.filteredItems_filter _ _ Hv) as [f Ef].
  rewrite Ef in Hin. apply filter_In in Hin as [Hin _].
  pose proof (ViewFacts.items_codes _ _ (locales (props c)) Hv eq_refl) as Ek.
  destruct (ContractFacts.buildLanguageView_accepted _ _ Hv)
    as (l & current & data & _ & _ & Ec & _ & _ & E).
  cbn in Ec. injection Ec as <-.
  assert (Hact : Contract.isActive item
                 = String.eqb (Contract.code item) (currentLocale (props c))).
  { rewrite E in Hin. cbn [Contract.items] in Hin.
    apply in_map_iff in Hin as ([k v] & <- & _). reflexivity. }
  split; [|split].
  - rewrite <- Ek. now apply in_map.
  - intros Ha. cbn [Render.handlers_of Render.onSelect]. unfold onSelect.
    rewrite <- Hact, Ha. reflexivity.
  - intros Ha. cbn [Render.handlers_of Render.onSelect]. unfold onSelect.
    rewrite <- Hact, Ha. cbn [navigations].
    eexists. split; [reflexivity|].
    rewrite HandlerFacts.newPath_joined.
    destruct (HandlerFacts.newSegments_head (locales (props c)) (pathname c)
                (Contract.code item)) as [rest ->].
    destruct rest as [|r rest].
    + now left.
    + right. now exists (join "/" (r :: rest)).
Qed.

End WithDocument.

End SwitcherMore.

(* ================================================================== *)
(** ** Locales of routes                                               *)
(* ================================================================== *)

Module RoutingFacts.
Import Js JsFacts Routing.

Lemma currentLocale_cases routing params :
  currentLocale (getLocaleFromParams routing params) =
  match default [] (locale params) with
  | first :: _ => if truthy first then first else defaultLocale routing
  | [] => defaultLocale routing
  end.
Proof.
  unfold getLocaleFromParams. cbn [currentLocale].
  now destruct (default [] (locale params)).
Qed.

Lemma valid_current_in_locales routing params :
  isValidLocale (getLocaleFromParams routing params) = true ->
  In (defaultLocale routing) (locales routing) ->
  In (currentLocale (getLocaleFromParams routing params)) (locales routing).
Proof.
  intros Hv Hd. rewrite currentLocale_cases.
  unfold getLocaleFromParams in Hv. cbn [isValidLocale] in Hv.
  destruct (default [] (locale params)) as [|first rest]; [assumption|].
  cbn [List.length Nat.eqb orb nth_error] in Hv.
  apply array_includes_iff in Hv. exact Hv.
Qed.

Lemma current_not_empty routing params :
  defaultLocale routing <> EmptyString ->
  currentLocale (getLocaleFromParams routing params) <> EmptyString.
Proof.
  intros Hd. rewrite currentLocale_cases.
  destruct (default [] (locale params)) as [|first rest]; [assumption|].
  destruct (truthy first) eqn:Ht; [now apply truthy_true | assumption].
Qed.

(** X24. Every route [generateStaticParams] lists has a valid locale, as
    [getLocaleFromParams] judges it: the route without a locale stands for
    the default locale, the route of a non-empty locale for that locale.  An
    empty string among the supported locales is read as the default locale,
    which must then be supported itself. *)
Theorem static_params_are_valid routing params :
  (In EmptyString (locales routing) ->
   In (defaultLocale routing) (locales routing)) ->
  In params (generateStaticParams routing) ->
  isValidLocale (getLocaleFromParams routing params) = true /\
  (locale params = Some [] ->
   currentLocale (getLocaleFromParams routing params)
   = defaultLocale routing) /\
  (forall l, locale params = Some [l] -> l <> EmptyString ->
             currentLocale (getLocaleFromParams routing params) = l).
Proof.
  intros Hempty Hin. split; [|split].
  - destruct Hin as [<-|Hin]; [reflexivity|].
    apply in_map_iff in Hin as (l & <- & Hl).
    unfold getLocaleFromParams.
    cbn [isValidLocale locale default List.length Nat.eqb orb nth_error].
    apply array_includes_iff. unfold or_else.
    destruct (truthy l) eqn:Ht; [assumption|].
    apply truthy_false in Ht. subst l. auto.
  - intros E. rewrite currentLocale_cases, E. reflexivity.
  - intros l E Hne. rewrite currentLocale_cases, E. cbn [default].
    apply truthy_true in Hne. now rewrite Hne.
Qed.

(** X25. A valid route gives the switcher a locale it accepts: when the
    default locale is supported and not empty and every supported locale is a
    key of the locale record, the current locale of a route that
    [getLocaleFromParams] judges valid is one a switcher mounts with. *)
Theorem valid_route_mounts {node : Type} {dom : Switcher.Dom node}
        {host : StringHost} routing params record className path (div : node) :
  In (defaultLocale routing) (locales routing) ->
  defaultLocale routing <> EmptyString ->
  incl (locales routing) (keys record) ->
  isValidLocale (getLocaleFromParams routing params) = true ->
  exists c,
    Switcher.mount
      {| Switcher.locales := record;
         Switcher.currentLocale :=
           currentLocale (getLocaleFromParams routing params);
         Switcher.className := className |} path div
    = Normal c.
Proof.
  intros Hd Hne Hincl Hv.
  pose proof (valid_current_in_locales routing params Hv Hd) as Hin.
  pose proof (current_not_empty routing params Hne) as Hcur.
  apply Hincl in Hin.
  unfold Switcher.mount, bind.
  match goal with |- context [Contract.buildLanguageView ?cfg] =>
    assert (Hb : exists v, Contract.buildLanguageView cfg = Normal v)
  end.
  { apply ViewFacts.verdict_normal. rewrite ViewFacts.verdict_cases.
    cbn [Switcher.config Contract.locales Contract.currentLocale
         Switcher.locales Switcher.currentLocale].
    destruct (keys record) as [|k ks] eqn:Hk; [contradiction|].
    apply truthy_true in Hcur. rewrite Hcur.
    rewrite <- Hk in Hin.
    destruct (lookup_key _ _ Hin) as (data & _ & ->). reflexivity. }
  destruct Hb as [v ->]. eauto.
Qed.

Example route_without_locale :
  getLocaleFromParams Samples.routing {| locale := None |}
  = {| localeArray := []; currentLocale := "en"; isValidLocale := true |}.
Proof. reflexivity. Qed.

Example route_of_unknown_locale :
  getLocaleFromParams Samples.routing {| locale := Some ["fr"; "about"] |}
  = {| localeArray := ["fr"; "about"]; currentLocale := "fr";
       isValidLocale := false |}.
Proof. reflexivity. Qed.

End RoutingFacts.

(* ================================================================== *)
(** ** The further theorems at work on the sample data                 *)
(* ================================================================== *)

Module MoreInstances.
Import Js Spec Words Demo Samples AsciiHost.

(** *** The environment helpers *)

Lemma headless_touch_warns :
  Browser.hasTouch headless []
  = (Normal Browser.no_touch, [BrowserInfo.touch_warning]).
Proof.
  destruct (proj1 (BrowserMore.only_hasTouch_warns headless "chrome" []))
    as (touch & E & Hno).
  rewrite E, (Hno eq_refl). reflexivity.
Defined.

Lemma desktop_runs_firefox :
  Browser.getUserAgent desktop [] = (Normal Browser.Firefox, []).
Proof.
  exact (proj1 (BrowserMore.getUserAgent_first_named
                  desktop firefox [] eq_refl)).
Defined.

Lemma desktop_agent_names_firefox :
  exists nav,
    Browser.navigator desktop = Some nav /\
    "FIREFOX" <> EmptyString /\
    ContainsIgnoringCase (Browser.userAgent nav) "FIREFOX".
Proof.
  apply (proj1 (BrowserMore.isUserAgent_iff desktop "FIREFOX" [])).
  reflexivity.
Defined.

Lemma phone_agent_is_mobile :
  Browser.hasMobile phone [] = (Normal Browser.has_mobile, []).
Proof.
  refine (proj2 (BrowserMore.hasMobile_iff phone _ _ [] eq_refl eq_refl) _).
  left. reflexivity.
Defined.

(** *** bemClassnames *)

Lemma bem_of_blanks_is_empty :
  Classname.bemClassnames (host := AsciiTrim.host)
                          (Some "  ") (Some [" "; EmptyString])
  = EmptyString.
Proof.
  apply (proj2 (ClassnameFacts.bemClassnames_empty_iff
                  (host := AsciiTrim.host)
                  (Some "  ") (Some [" "; EmptyString]))).
  split; reflexivity.
Defined.

Lemma bem_with_only_blanks :
  Classname.bemClassnames (host := AsciiTrim.host) (Some "card") (Some ["  "])
  = Classname.bemClassnames (host := AsciiTrim.host) (Some "card") None.
Proof.
  apply (proj2 (ClassnameFacts.bemClassnames_ignores_blanks
                  (host := AsciiTrim.host) (Some "card") (Some ["  "]))).
  reflexivity.
Defined.

(** *** The path rewrite *)


Lemma spanish_then_vietnamese :
  Switcher.newPath locales (Switcher.newPath locales "/en/about/" "es") "vi"
  = Switcher.newPath locales "/en/about/" "vi".
Proof.
  apply (PathFacts.newPath_twice locales "/en/about/" "es" "vi").
  - reflexivity.
  - simpl. auto.
Defined.

Lemma spanish_and_back_to_english :
  Switcher.newPath locales (Switcher.newPath locales "/en//about/" "es") "en"
  = "/en/about".
Proof.
  apply (PathFacts.newPath_there_and_back
           locales "/en//about/" "en" ["about"] "es").
  - reflexivity.
  - simpl. auto.
  - reflexivity.
  - simpl. auto.
Defined.

(** *** buildLanguageView *)

Lemma french_is_reported_by_name :
  exists current,
    Contract.currentLocale (config "fr" EmptyString) = Some current /\
    Contract.buildLanguageView (config "fr" EmptyString)
    = Throw (Error (not_found current)).
Proof.
  apply (proj2 (proj2 (ViewFacts.buildLanguageView_error_order
                         (config "fr" EmptyString)))).
  - intros H. discriminate H.
  - intros H. discriminate H.
  - cbn. split; intros H;
      repeat (destruct H as [H|H]; [discriminate H|]); exact H.
Defined.

Lemma search_keeps_the_items :
  Contract.items (view_of (config "en" "ES"))
  = Contract.items (view_of (config "en" EmptyString)).
Proof.
  apply (proj2 (ViewFacts.search_leaves_items_alone
                  (config "en" "ES") (config "en" EmptyString)
                  eq_refl eq_refl)
               (view_of (config "en" "ES"))
               (view_of (config "en" EmptyString))
               eq_refl eq_refl).
Defined.

Lemma keys_of_search_ES :
  exists locales codes,
    Contract.locales (config "en" "ES") = Some locales /\
    map Render.key_of
        (Render.options
           (Render.renderLanguageSwitcher (view_of (config "en" "ES"))
                                          (Render.handlers_of searching)))
    = map Some codes /\
    codes = map Contract.code
                (Contract.filteredItems (view_of (config "en" "ES"))) /\
    NoDup codes /\
    incl codes (keys locales).
Proof.
  apply (ViewFacts.rendered_keys_are_distinct (config "en" "ES")).
  reflexivity.
Defined.

(** *** The mounted switcher *)

Lemma searching_view_is_current :
  Contract.trigger_isOpen (Contract.trigger (Switcher.view searching)) = true /\
  Contract.value (Contract.search (Switcher.view searching)) = "es".
Proof.
  destruct (SwitcherMore.view_is_current
              searching Instances.searching_reachable eq_refl)
    as (_ & H1 & H2 & _).
  split; [exact H1 | exact H2].
Defined.

Lemma opened_survives_a_selection :
  Switcher.mounted (Switcher.step opened (Switcher.click_item "es")) = true /\
  Switcher.props (Switcher.step opened (Switcher.click_item "es"))
  = Switcher.props opened.
Proof.
  exact (SwitcherMore.user_events_keep_mounted
           opened (Switcher.click_item "es")
           Instances.opened_reachable eq_refl eq_refl).
Defined.

Lemma typing_es_in_opened :
  Switcher.state (Switcher.step opened (Switcher.input "es"))
  = {| Switcher.isOpen := true; Switcher.searchValue := "es" |} /\
  Switcher.pushed (Switcher.step opened (Switcher.input "es"))
  = Switcher.pushed opened.
Proof.
  destruct (SwitcherMore.typing_filters
              opened "es" Instances.opened_reachable eq_refl)
    as (H1 & H2 & _).
  split; [exact H1 | exact H2].
Defined.

Lemma mousedown_on_fresh :
  let c' := Switcher.step fresh (Switcher.mousedown [1]) in
  Switcher.state c' = Switcher.state fresh /\
  Switcher.pushed c' = Switcher.pushed fresh /\
  Switcher.listeners c' = [].
Proof.
  exact (SwitcherMore.mousedown_while_closed
           fresh [1] Instances.fresh_reachable eq_refl).
Defined.

Lemma selecting_spanish_pushes_one_path :
  Switcher.pushed (Switcher.step searching (Switcher.click_item "es"))
  = Switcher.pushed searching ++
    [Switcher.newPath (Switcher.locales (Switcher.props searching))
                      (Switcher.pathname searching) "es"].
Proof.
  apply (proj2 (proj2 (SwitcherMore.only_selection_navigates
                         searching (Switcher.click_item "es") eq_refl))
               "es" eq_refl).
  discriminate.
Defined.

Lemma french_props_unmount_opened :
  let c' := Switcher.step opened (Switcher.rerender french_props "/fr") in
  (exists message,
      Contract.buildLanguageView
        (Switcher.config french_props (Switcher.state opened))
      = Throw (Error message)) /\
  Switcher.mounted c' = false /\
  Switcher.listeners c' = [] /\
  Switcher.containerRef c' = None.
Proof.
  apply (SwitcherMore.bad_props_unmount opened french_props "/fr"
           Instances.opened_reachable eq_refl).
  - simpl. intros [H|[H|[H|[]]]]; discriminate H.
  - cbn. intros H.
    repeat (destruct H as [H|H]; [discriminate H|]). exact H.
Defined.

Lemma english_props_mount :
  exists c,
    Switcher.mount props "/en/about" [0; 2] = Normal c /\
    Switcher.mounted c = true /\
    Switcher.state c
    = {| Switcher.isOpen := false; Switcher.searchValue := EmptyString |} /\
    Contract.filteredItems (Switcher.view c)
    = Contract.items (Switcher.view c) /\
    map Contract.code (Contract.items (Switcher.view c))
    = keys (Switcher.locales props) /\
    Switcher.listeners c = [] /\ Switcher.pushed c = [].
Proof.
  apply (SwitcherMore.mount_of_valid_props props "/en/about" [0; 2]).
  - discriminate.
  - simpl. auto.
Defined.

(** The Spanish item, as the view of [searching] shows it. *)
Lemma spanish_item_leads_to_es :
  exists path,
    navigations (Render.onSelect (Render.handlers_of searching) "es")
    = [path] /\
    first_segment_is "es" path.
Proof.
  apply (proj2 (proj2 (SwitcherMore.rendered_items_lead_to_locales
                         searching
                         {| Contract.code := "es"; Contract.label := "Espanol";
                            Contract.item_flag := "ES";
                            Contract.isActive := false |}
                         Instances.searching_reachable eq_refl
                         (or_introl eq_refl)))).
  reflexivity.
Defined.

(** *** Routes *)

Lemma spanish_route_is_valid :
  Routing.isValidLocale
    (Routing.getLocaleFromParams routing {| Routing.locale := Some ["es"] |})
  = true.
Proof.
  apply (proj1 (RoutingFacts.static_params_are_valid
                  routing {| Routing.locale := Some ["es"] |}
                  (fun H => or_introl eq_refl)
                  (or_intror (or_intror (or_introl eq_refl))))).
Defined.

Lemma spanish_route_mounts :
  exists c,
    Switcher.mount
      {| Switcher.locales := locales;
         Switcher.currentLocale :=
           Routing.currentLocale
             (Routing.getLocaleFromParams
                routing {| Routing.locale := Some ["es"; "about"] |});
         Switcher.className := None |} "/es/about" [0; 2]
    = Normal c.
Proof.
  apply (RoutingFacts.valid_route_mounts
           routing {| Routing.locale := Some ["es"; "about"] |}
           locales None "/es/about" [0; 2]).
  - simpl. auto.
  - discriminate.
  - intros l H. exact H.
  - reflexivity.
Defined.

End MoreInstances.
